(** * ceph-terraform: a shallow embedding of the provider's reconciliation core

    The development follows [ceph_terraform_provider.go]: the Go library
    functions the provider calls ([strings.Split], [strings.Contains],
    [strings.TrimSpace], [strconv.ParseInt], [json.Unmarshal]) are modelled
    on byte strings, the external [ceph] and [rbd] processes are an
    environment answering argument vectors, and every resource method is a
    function from its request to a response (diagnostics and state) that
    also records the argument vectors it executed. *)

From Stdlib Require Import String Ascii List ZArith Lia Bool Arith.
From Stdlib Require Import Numbers.DecimalString.
Import ListNotations.

#[local] Set Warnings "-register-all,-abstract-large-number".

Open Scope list_scope.
Open Scope string_scope.

(** ** Go's [strings] and [strconv] on byte strings *)

Module Strings.

(** Bytes that the sources and the tests need and that cannot be written
    inside a literal. *)
Definition nl : string := String "010"%char "".
Definition tab : string := String "009"%char "".
Definition dquote : string := String "034"%char "".

Fixpoint drop (n : nat) (s : string) : string :=
  match n, s with
  | O, _ => s
  | S _, "" => ""
  | S k, String _ s' => drop k s'
  end.

Fixpoint rev_onto (s acc : string) : string :=
  match s with
  | "" => acc
  | String c s' => rev_onto s' (String c acc)
  end.

Definition rev (s : string) : string := rev_onto s "".

(** [strings.Contains(s, substr)]: some suffix of [s] starts with [substr]. *)
Fixpoint Contains (s substr : string) : bool :=
  prefix substr s
  || match s with
     | "" => false
     | String _ s' => Contains s' substr
     end.

(** [strings.Split(s, sep)] for a non-empty [sep]: the fields between the
    leftmost non-overlapping occurrences of [sep]; always at least one
    field.  [skip] counts the bytes of a separator still to be passed over,
    [acc] is the field read so far. *)
Fixpoint split_go (sep : string) (skip : nat) (acc s : string) : list string :=
  match s with
  | "" => [acc]
  | String c s' =>
      match skip with
      | S k => split_go sep k acc s'
      | O =>
          if prefix sep s
          then acc :: split_go sep (String.length sep - 1) "" s'
          else split_go sep 0 (acc ++ String c "") s'
      end
  end.

(** With an empty separator Go cuts after every UTF-8 sequence; the provider
    never does that, and the model cuts after every byte. *)
Fixpoint explode (s : string) : list string :=
  match s with
  | "" => []
  | String c s' => String c "" :: explode s'
  end.

Definition Split (s sep : string) : list string :=
  match sep with
  | "" => explode s
  | _ => split_go sep 0 "" s
  end.

(** [strings.Join(elems, sep)]. *)
Fixpoint Join (elems : list string) (sep : string) : string :=
  match elems with
  | [] => ""
  | [e] => e
  | e :: rest => e ++ sep ++ Join rest sep
  end.

(** The encodings of the code points for which [unicode.IsSpace] holds:
    U+0009..U+000D, U+0020, U+0085, U+00A0, U+1680, U+2000..U+200A, U+2028,
    U+2029, U+202F, U+205F, U+3000. *)
Definition bytes (l : list nat) : string :=
  fold_right (fun n s => String (ascii_of_nat n) s) "" l.

Definition space_encodings : list string :=
  map bytes
    [ [9]; [10]; [11]; [12]; [13]; [32];
      [194; 133]; [194; 160]; [225; 154; 128];
      [226; 128; 128]; [226; 128; 129]; [226; 128; 130]; [226; 128; 131];
      [226; 128; 132]; [226; 128; 133]; [226; 128; 134]; [226; 128; 135];
      [226; 128; 136]; [226; 128; 137]; [226; 128; 138];
      [226; 128; 168]; [226; 128; 169]; [226; 128; 175];
      [226; 129; 159]; [227; 128; 128] ].

(** Removes the white space [encs] describes from the front of [s]. *)
Fixpoint trim_front (encs : list string) (fuel : nat) (s : string) : string :=
  match fuel with
  | O => s
  | S f =>
      match find (fun w => prefix w s) encs with
      | Some w => trim_front encs f (drop (String.length w) s)
      | None => s
      end
  end.

Definition TrimLeftSpace (s : string) : string :=
  trim_front space_encodings (String.length s) s.

Definition TrimRightSpace (s : string) : string :=
  rev (trim_front (map rev space_encodings) (String.length s) (rev s)).

(** [strings.TrimSpace(s)]. *)
Definition TrimSpace (s : string) : string :=
  TrimRightSpace (TrimLeftSpace s).

(** [strconv]: the two failures of a [*NumError]. *)
Inductive NumError := ErrSyntax | ErrRange.

Definition is_digit (c : ascii) : bool :=
  let n := nat_of_ascii c in (48 <=? n)%nat && (n <=? 57)%nat.

Definition digit_val (c : ascii) : Z := Z.of_nat (nat_of_ascii c - 48).

Definition maxUint64 : Z := 2 ^ 64 - 1.

(** The loop of [strconv.ParseUint(s, 10, 64)]: a byte that is no digit is
    a syntax error with value 0; past the cutoff the loop stops at once with
    the largest value and a range error. *)
Fixpoint parseUint_loop (s : string) (n : Z) : Z * option NumError :=
  match s with
  | "" => (n, None)
  | String c s' =>
      if is_digit c then
        if (maxUint64 / 10 + 1 <=? n)%Z then (maxUint64, Some ErrRange)
        else
          let n1 := (n * 10 + digit_val c)%Z in
          if (maxUint64 <? n1)%Z then (maxUint64, Some ErrRange)
          else parseUint_loop s' n1
      else (0%Z, Some ErrSyntax)
  end.

Definition ParseUint10 (s : string) : Z * option NumError :=
  match s with
  | "" => (0%Z, Some ErrSyntax)
  | _ => parseUint_loop s 0
  end.

(** [strconv.ParseInt(s, 10, 64)]: an optional sign, then [ParseUint]; a
    syntax error yields 0, a value out of range yields the nearest bound. *)
Definition ParseInt10 (s : string) : Z * option NumError :=
  match s with
  | "" => (0%Z, Some ErrSyntax)
  | String c s' =>
      let neg := Ascii.eqb c "-" in
      let s0 := if Ascii.eqb c "+" || neg then s' else s in
      match ParseUint10 s0 with
      | (_, Some ErrSyntax) => (0%Z, Some ErrSyntax)
      | (un, _) =>
          let cutoff := (2 ^ 63)%Z in
          if negb neg && (cutoff <=? un)%Z then ((cutoff - 1)%Z, Some ErrRange)
          else if neg && (cutoff <? un)%Z then ((- cutoff)%Z, Some ErrRange)
          else ((if neg then - un else un)%Z, None)
      end
  end.

(** [fmt.Sprintf("%d", n)] for an [int64]. *)
Definition FormatInt (n : Z) : string := NilZero.string_of_int (Z.to_int n).

End Strings.
Import Strings.

(** ** Go's [encoding/json], decoding into [interface{}] values *)

Module json.

(** The parts of a number literal: sign, integer digits, fraction digits and
    exponent. *)
Record number := {
  negative : bool;
  int_digits : string;
  frac_digits : string;
  exponent : Z
}.

(** What [json.Unmarshal] stores in an [interface{}]: [nil], [bool],
    [float64] (kept as the literal it is read from), [string],
    [[]interface{}] and [map[string]interface{}]. *)
Inductive value :=
| Null
| Bool (b : bool)
| Number (n : number)
| Str (s : string)
| Array (elems : list value)
| Object (members : list (string * value)).

(** A Go map: storing under a key that is present replaces its value. *)
Fixpoint store (k : string) (v : value) (m : list (string * value)) : list (string * value) :=
  match m with
  | [] => [(k, v)]
  | (k', v') :: m' => if String.eqb k k' then (k, v) :: m' else (k', v') :: store k v m'
  end.

Fixpoint lookup (k : string) (m : list (string * value)) : option value :=
  match m with
  | [] => None
  | (k', v) :: m' => if String.eqb k k' then Some v else lookup k m'
  end.

(** The outcome of a decoding step; [OutOfFuel] is the model's own and never
    the outcome of [Unmarshal] (see [decode_fuel_suffices]). *)
Inductive result (A : Type) :=
| Ok (a : A)
| Invalid
| OutOfFuel.
Arguments Ok {A} a.
Arguments Invalid {A}.
Arguments OutOfFuel {A}.

Definition is_space (c : ascii) : bool :=
  Ascii.eqb c " " || Ascii.eqb c "009" || Ascii.eqb c "010" || Ascii.eqb c "013".

Fixpoint skip_space (s : string) : string :=
  match s with
  | String c s' => if is_space c then skip_space s' else s
  | "" => ""
  end.

(** The longest prefix of digits and what follows it. *)
Fixpoint digits (s : string) : string * string :=
  match s with
  | String c s' =>
      if is_digit c then let '(d, r) := digits s' in (String c d, r) else ("", s)
  | "" => ("", "")
  end.

Definition digits1 (s : string) : option (string * string) :=
  match digits s with
  | ("", _) => None
  | p => Some p
  end.

Fixpoint digits_val (s : string) (n : Z) : Z :=
  match s with
  | String c s' => digits_val s' (n * 10 + digit_val c)
  | "" => n
  end.

(** [s] without its first byte when that is [c]. *)
Definition eat (c : ascii) (s : string) : option string :=
  match s with
  | String x r => if Ascii.eqb x c then Some r else None
  | "" => None
  end.

(** A number literal: an optional minus sign; a single 0 or a run of digits;
    optionally a point and at least one digit; optionally e or E, a sign and
    at least one digit. *)
Definition scan_number (s : string) : option (number * string) :=
  let '(neg, s) := match eat "-" s with Some s' => (true, s') | None => (false, s) end in
  let int_part :=
    match eat "0" s with
    | Some s' => Some ("0", s')
    | None => digits1 s
    end in
  match int_part with
  | None => None
  | Some (i, s) =>
      let frac_part :=
        match eat "." s with
        | Some s' => digits1 s'
        | None => Some ("", s)
        end in
      match frac_part with
      | None => None
      | Some (f, s) =>
          let mk e r :=
            Some ({| negative := neg; int_digits := i; frac_digits := f; exponent := e |}, r) in
          match (match eat "e" s with Some s' => Some s' | None => eat "E" s end) with
          | Some s' =>
              let '(eneg, s'') :=
                match eat "-" s' with
                | Some t => (true, t)
                | None => match eat "+" s' with Some t => (false, t) | None => (false, s') end
                end in
              match digits1 s'' with
              | Some (e, r) => mk (if eneg then - digits_val e 0 else digits_val e 0)%Z r
              | None => None
              end
          | None => mk 0%Z s
          end
      end
  end.

(** [strconv.ParseFloat(lit, 64)] fails with a range error exactly when the
    literal rounds to an infinity, that is when its magnitude reaches
    [2^1024 - 2^970]. *)
Definition overflows_float64 (n : number) : bool :=
  let m := digits_val (int_digits n ++ frac_digits n) 0 in
  let e := (exponent n - Z.of_nat (String.length (frac_digits n)))%Z in
  let bound := (2 ^ 1024 - 2 ^ 970)%Z in
  if (0 <=? e)%Z then (bound <=? m * 10 ^ e)%Z else (bound * 10 ^ (- e) <=? m)%Z.

(** [utf8.EncodeRune]. *)
Definition chr (n : N) : ascii := ascii_of_N n.

Definition encode_rune (r : N) : string :=
  let r := if ((55296 <=? r) && (r <=? 57343) || (1114111 <? r))%N then 65533%N else r in
  if (r <? 128)%N then String (chr r) ""
  else if (r <? 2048)%N then
    String (chr (192 + r / 64)) (String (chr (128 + r mod 64)) "")
  else if (r <? 65536)%N then
    String (chr (224 + r / 4096))
      (String (chr (128 + (r / 64) mod 64)) (String (chr (128 + r mod 64)) ""))
  else
    String (chr (240 + r / 262144))
      (String (chr (128 + (r / 4096) mod 64))
         (String (chr (128 + (r / 64) mod 64)) (String (chr (128 + r mod 64)) ""))).

Definition in_range (lo hi : N) (c : ascii) : bool :=
  ((lo <=? N_of_ascii c) && (N_of_ascii c <=? hi))%N.

(** The length of the well-formed UTF-8 sequence [s] starts with, 0 when it
    starts with none ([utf8.DecodeRune] then yields [RuneError] of width 1). *)
Definition utf8_size (s : string) : nat :=
  match s with
  | "" => 0
  | String b0 rest =>
      let x := N_of_ascii b0 in
      if (x <? 128)%N then 1
      else if in_range 194 223 b0 then
        match rest with
        | String b1 _ => if in_range 128 191 b1 then 2 else 0
        | _ => 0
        end
      else if in_range 224 239 b0 then
        match rest with
        | String b1 (String b2 _) =>
            let lo := if (x =? 224)%N then 160%N else 128%N in
            let hi := if (x =? 237)%N then 159%N else 191%N in
            if in_range lo hi b1 && in_range 128 191 b2 then 3 else 0
        | _ => 0
        end
      else if in_range 240 244 b0 then
        match rest with
        | String b1 (String b2 (String b3 _)) =>
            let lo := if (x =? 240)%N then 144%N else 128%N in
            let hi := if (x =? 244)%N then 143%N else 191%N in
            if in_range lo hi b1 && in_range 128 191 b2 && in_range 128 191 b3 then 4 else 0
        | _ => 0
        end
      else 0
  end.

Definition hex_val (c : ascii) : option N :=
  let x := N_of_ascii c in
  if in_range 48 57 c then Some (x - 48)%N
  else if in_range 97 102 c then Some (x - 87)%N
  else if in_range 65 70 c then Some (x - 55)%N
  else None.

(** [getu4]: the code unit of a [\uXXXX] escape at the front of [s]. *)
Definition getu4 (s : string) : option N :=
  match s with
  | String "\" (String "u" (String a (String b (String c (String d _))))) =>
      match hex_val a, hex_val b, hex_val c, hex_val d with
      | Some a, Some b, Some c, Some d => Some (((a * 16 + b) * 16 + c) * 16 + d)%N
      | _, _, _, _ => None
      end
  | _ => None
  end.

Definition simple_escape (c : ascii) : option ascii :=
  if Ascii.eqb c "034" then Some "034"%char
  else if Ascii.eqb c "\" then Some "\"%char
  else if Ascii.eqb c "/" then Some "/"%char
  else if Ascii.eqb c "b" then Some "008"%char
  else if Ascii.eqb c "f" then Some "012"%char
  else if Ascii.eqb c "n" then Some "010"%char
  else if Ascii.eqb c "r" then Some "013"%char
  else if Ascii.eqb c "t" then Some "009"%char
  else None.

(** Bytes of the input that the step before has already accounted for: to
    be copied (the rest of a UTF-8 sequence) or passed over (the rest of an
    escape). *)
Inductive pending := Nothing | Copy (k : nat) | Drop (k : nat).

Definition emit (pre : string) (r : option string) : option string :=
  match r with
  | Some s => Some (pre ++ s)
  | None => None
  end.

(** The decoder's [unquote] on the bytes between the quotes: escapes are
    replaced, a surrogate pair is joined, a lone surrogate and every byte
    that starts no well-formed UTF-8 sequence become U+FFFD. *)
Fixpoint unquote (p : pending) (s : string) : option string :=
  match s with
  | "" => Some ""
  | String c s' =>
      match p with
      | Copy (S k) => emit (String c "") (unquote (Copy k) s')
      | Drop (S k) => unquote (Drop k) s'
      | _ =>
          if Ascii.eqb c "\" then
            match s' with
            | "" => None
            | String "u" _ =>
                match getu4 s with
                | None => None
                | Some rr =>
                    if ((55296 <=? rr) && (rr <=? 57343))%N then
                      match getu4 (drop 6 s) with
                      | Some rr1 =>
                          if ((rr <? 56320) && (56320 <=? rr1) && (rr1 <=? 57343))%N
                          then emit (encode_rune (65536 + (rr - 55296) * 1024 + (rr1 - 56320))%N)
                                    (unquote (Drop 11) s')
                          else emit (encode_rune 65533) (unquote (Drop 5) s')
                      | None => emit (encode_rune 65533) (unquote (Drop 5) s')
                      end
                    else emit (encode_rune rr) (unquote (Drop 5) s')
                end
            | String e _ =>
                match simple_escape e with
                | Some ch => emit (String ch "") (unquote (Drop 1) s')
                | None => None
                end
            end
          else if (N_of_ascii c <? 32)%N then None
          else
            match utf8_size s with
            | O => emit (encode_rune 65533) (unquote Nothing s')
            | S k => emit (String c "") (unquote (Copy k) s')
            end
      end
  end.

(** The bytes up to the closing quote, escapes unread, and what follows the
    quote. *)
Fixpoint scan_string (s : string) : option (string * string) :=
  match s with
  | "" => None
  | String c s' =>
      if Ascii.eqb c "034" then Some ("", s')
      else if Ascii.eqb c "\" then
        match s' with
        | "" => None
        | String e s'' =>
            match scan_string s'' with
            | Some (raw, r) => Some (String c (String e raw), r)
            | None => None
            end
        end
      else
        match scan_string s' with
        | Some (raw, r) => Some (String c raw, r)
        | None => None
        end
  end.

Definition parse_string (s : string) : option (string * string) :=
  match scan_string s with
  | Some (raw, r) =>
      match unquote Nothing raw with
      | Some v => Some (v, r)
      | None => None
      end
  | None => None
  end.

Definition maxNestingDepth : nat := 10000.

(** One value, white space before it allowed; [depth] is the number of
    objects and arrays open around it. *)
Fixpoint parse_value (fuel depth : nat) (s : string) : result (value * string) :=
  match fuel with
  | O => OutOfFuel
  | S f =>
      match skip_space s with
      | "" => Invalid
      | String c s1 =>
          if Ascii.eqb c "{" then
            if (maxNestingDepth <? S depth)%nat then Invalid
            else
              match eat "}" (skip_space s1) with
              | Some s2 => Ok (Object [], s2)
              | None => parse_members f (S depth) [] s1
              end
          else if Ascii.eqb c "[" then
            if (maxNestingDepth <? S depth)%nat then Invalid
            else
              match eat "]" (skip_space s1) with
              | Some s2 => Ok (Array [], s2)
              | None => parse_elements f (S depth) [] s1
              end
          else if Ascii.eqb c "034" then
            match parse_string s1 with
            | Some (v, r) => Ok (Str v, r)
            | None => Invalid
            end
          else if prefix "true" (String c s1) then Ok (Bool true, drop 3 s1)
          else if prefix "false" (String c s1) then Ok (Bool false, drop 4 s1)
          else if prefix "null" (String c s1) then Ok (Null, drop 3 s1)
          else
            match scan_number (String c s1) with
            | Some (n, r) => if overflows_float64 n then Invalid else Ok (Number n, r)
            | None => Invalid
            end
      end
  end

with parse_members (fuel depth : nat) (acc : list (string * value)) (s : string)
  : result (value * string) :=
  match fuel with
  | O => OutOfFuel
  | S f =>
      match eat "034" (skip_space s) with
      | None => Invalid
      | Some s1 =>
          match parse_string s1 with
          | None => Invalid
          | Some (k, s2) =>
              match eat ":" (skip_space s2) with
              | None => Invalid
              | Some s3 =>
                  match parse_value f depth s3 with
                  | Ok (v, s4) =>
                      match eat "," (skip_space s4) with
                      | Some s5 => parse_members f depth (store k v acc) s5
                      | None =>
                          match eat "}" (skip_space s4) with
                          | Some s5 => Ok (Object (store k v acc), s5)
                          | None => Invalid
                          end
                      end
                  | Invalid => Invalid
                  | OutOfFuel => OutOfFuel
                  end
              end
          end
      end
  end

with parse_elements (fuel depth : nat) (acc : list value) (s : string)
  : result (value * string) :=
  match fuel with
  | O => OutOfFuel
  | S f =>
      match parse_value f depth s with
      | Ok (v, s1) =>
          match eat "," (skip_space s1) with
          | Some s2 => parse_elements f depth (v :: acc) s2
          | None =>
              match eat "]" (skip_space s1) with
              | Some s2 => Ok (Array (List.rev (v :: acc)), s2)
              | None => Invalid
              end
          end
      | Invalid => Invalid
      | OutOfFuel => OutOfFuel
      end
  end.

(** The document as a whole: one value and nothing but white space after
    it.  Into a [map[string]interface{}] an object decodes to its members,
    [null] leaves the map nil (which reads as an empty map), and every other
    value is an [UnmarshalTypeError]. *)
Definition decode (data : string) : result (list (string * value)) :=
  match parse_value (S (2 * String.length data)) 0 data with
  | Ok (v, rest) =>
      match skip_space rest, v with
      | "", Object m => Ok m
      | "", Null => Ok []
      | _, _ => Invalid
      end
  | Invalid => Invalid
  | OutOfFuel => OutOfFuel
  end.

(** [json.Unmarshal(data, &m)] for [m] a nil [map[string]interface{}]:
    [Some] of the map when [err == nil]. *)
Definition Unmarshal (data : string) : option (list (string * value)) :=
  match decode data with
  | Ok m => Some m
  | _ => None
  end.

End json.

(** ** The provider's client *)

Record CephClient := {
  ConfigFile : string;
  Keyring : string;
  User : string
}.

Definition nonempty (s : string) : bool := negb (String.eqb s "").

(** [CephClient.buildCmdArgs]: the three [if]s run in sequence, each
    appending to the slice the previous one left. *)
Definition buildCmdArgs (c : CephClient) (cmd : string) : list string :=
  let args := Split cmd " " in
  let args := if nonempty (ConfigFile c) then (args ++ ["--conf"; ConfigFile c])%list else args in
  let args := if nonempty (Keyring c) then (args ++ ["--keyring"; Keyring c])%list else args in
  let args := if nonempty (User c) then (args ++ ["--user"; User c])%list else args in
  args.

(** ** The framework's attribute values *)

Module types.

(** [types.String] (the name [String] is taken by the constructor of Rocq's
    strings): null, unknown or a known string. *)
Inductive String_ := StringNull | StringUnknown | StringValue (s : string).

(** [types.Int64]. *)
Inductive Int64 := Int64Null | Int64Unknown | Int64Value (n : Z).

(** [types.Set] of strings, as carried by the block image's [features]. *)
Inductive Set_ := SetNull | SetUnknown | SetValue (elems : list string).

Definition String_IsNull (v : String_) : bool :=
  match v with StringNull => true | _ => false end.

Definition Int64_IsNull (v : Int64) : bool :=
  match v with Int64Null => true | _ => false end.

(** [ValueString] and [ValueInt64] yield the zero value unless known. *)
Definition ValueString (v : String_) : string :=
  match v with StringValue s => s | _ => "" end.

Definition ValueInt64 (v : Int64) : Z :=
  match v with Int64Value n => n | _ => 0%Z end.

(** [StringValue.Equal]: the same state and, when known, the same string. *)
Definition String_Equal (a b : String_) : bool :=
  match a, b with
  | StringNull, StringNull => true
  | StringUnknown, StringUnknown => true
  | StringValue x, StringValue y => String.eqb x y
  | _, _ => false
  end.

End types.
Import types.

(** ** Running the control plane *)

(** What [exec.Command(args[0], args[1:]...).Output()] returns: the standard
    output, or an error with its message. *)
Inductive ExecResult :=
| Output (stdout : string)
| Failure (message : string).

(** The argument vectors executed so far, oldest first. *)
Definition Trace := list (list string).

(** The cluster behind the tools: its answer to an argument vector may
    depend on everything executed before. *)
Definition Env := Trace -> list string -> ExecResult.

(** Operations thread the trace. *)
Definition M (A : Type) : Type := Trace -> A * Trace.

Definition ret {A : Type} (a : A) : M A := fun tr => (a, tr).

Definition bind {A B : Type} (m : M A) (k : A -> M B) : M B :=
  fun tr => let '(a, tr') := m tr in k a tr'.

Notation "x <- m ;; k" := (bind m (fun x => k))
  (at level 61, m at next level, right associativity).
Notation "' p <- m ;; k" := (bind m (fun x => let 'p := x in k))
  (at level 61, p pattern, m at next level, right associativity).

(** [CephClient.ExecuteCommand]: Go's [(string, error)], the error by its
    message.  [args[0]] exists ([buildCmdArgs_nonempty]), and the process is
    determined by the whole vector. *)
Definition ExecuteCommand (env : Env) (c : CephClient) (cmd : string)
  : M (string * option string) :=
  fun tr =>
    let args := buildCmdArgs c cmd in
    (match env tr args with
     | Output out => (out, None)
     | Failure msg => ("", Some ("command failed: " ++ msg))
     end,
     (tr ++ [args])%list).

(** ** Requests and responses *)

(** The detail of an error diagnostic: the message of a command error, or
    the error [json.Unmarshal] returned (its text is not modelled). *)
Inductive detail :=
| Message (s : string)
| UnmarshalError.

Record Diagnostic := AddError {
  Summary : string;
  Detail : detail
}.

(** What a method did to [resp.State]: nothing, [Set], or
    [RemoveResource]. *)
Inductive StateOp (S : Type) :=
| Untouched
| Set_ (s : S)
| RemoveResource.
Arguments Untouched {S}.
Arguments Set_ {S} s.
Arguments RemoveResource {S}.

Record Response (S : Type) := {
  Diagnostics : list Diagnostic;
  State : StateOp S
}.
Arguments Diagnostics {S}.
Arguments State {S}.

Definition HasError {S : Type} (r : Response S) : bool :=
  match Diagnostics r with [] => false | _ => true end.

(** [resource.UpdateRequest]: the planned and the prior state, decoded. *)
Record UpdateRequest (S : Type) := {
  req_Plan : S;
  req_State : S
}.
Arguments req_Plan {S}.
Arguments req_State {S}.

(** Every method below starts after [req.Plan.Get], [req.State.Get] and
    [ElementsAs] have decoded their values without an error, and leaves out
    the [tflog.Info] lines. *)

(** ** Pool resource *)

Module poolResource.

Record Model := {
  Name : types.String_;
  PgNum : types.Int64;
  PgpNum : types.Int64;
  Size : types.Int64;
  MinSize : types.Int64;
  Type_ : types.String_;
  CrushRule : types.String_
}.

Definition set_Size (m : Model) (v : types.Int64) : Model :=
  {| Name := Name m; PgNum := PgNum m; PgpNum := PgpNum m; Size := v;
     MinSize := MinSize m; Type_ := Type_ m; CrushRule := CrushRule m |}.

Definition set_MinSize (m : Model) (v : types.Int64) : Model :=
  {| Name := Name m; PgNum := PgNum m; PgpNum := PgpNum m; Size := Size m;
     MinSize := v; Type_ := Type_ m; CrushRule := CrushRule m |}.

(** The body of the loop over the lines in [Read]. *)
Definition Read_line (state : Model) (line : string) : Model :=
  let state :=
    if Contains line "size:" then
      let parts := Split line ":" in
      if (List.length parts =? 2)%nat then
        let '(size, _) := ParseInt10 (TrimSpace (nth 1 parts "")) in
        set_Size state (Int64Value size)
      else state
    else state in
  let state :=
    if Contains line "min_size:" then
      let parts := Split line ":" in
      if (List.length parts =? 2)%nat then
        let '(minSize, _) := ParseInt10 (TrimSpace (nth 1 parts "")) in
        set_MinSize state (Int64Value minSize)
      else state
    else state in
  state.

(** The parsing in [Read]: split the output into lines and run the loop. *)
Definition parse (output : string) (state : Model) : Model :=
  fold_left Read_line (Split output nl) state.

Definition Read (env : Env) (c : CephClient) (state : Model) : M (Response Model) :=
  ' (output, err) <- ExecuteCommand env c ("ceph osd pool get " ++ ValueString (Name state) ++ " all") ;;
  match err with
  | Some e => ret {| Diagnostics := [AddError "Failed to read pool" (Message e)]; State := Untouched |}
  | None => ret {| Diagnostics := []; State := Set_ (parse output state) |}
  end.

Definition set_size_cmd (plan : Model) : string :=
  "ceph osd pool set " ++ ValueString (Name plan) ++ " size "
  ++ FormatInt (ValueInt64 (Size plan)).

Definition set_min_size_cmd (plan : Model) : string :=
  "ceph osd pool set " ++ ValueString (Name plan) ++ " min_size "
  ++ FormatInt (ValueInt64 (MinSize plan)).

(** [Update] reads the plan only; each step either returns with its error
    or goes on to the rest [k]. *)
Definition Update (env : Env) (c : CephClient) (req : UpdateRequest Model)
  : M (Response Model) :=
  let plan := req_Plan req in
  let size_step (k : M (Response Model)) : M (Response Model) :=
    if negb (Int64_IsNull (Size plan)) then
      ' (_, err) <- ExecuteCommand env c (set_size_cmd plan) ;;
      match err with
      | Some e => ret {| Diagnostics := [AddError "Failed to update pool size" (Message e)];
                         State := Untouched |}
      | None => k
      end
    else k in
  let min_size_step (k : M (Response Model)) : M (Response Model) :=
    if negb (Int64_IsNull (MinSize plan)) then
      ' (_, err) <- ExecuteCommand env c (set_min_size_cmd plan) ;;
      match err with
      | Some e => ret {| Diagnostics := [AddError "Failed to update pool min_size" (Message e)];
                         State := Untouched |}
      | None => k
      end
    else k in
  size_step (min_size_step (ret {| Diagnostics := []; State := Set_ plan |})).

Definition delete_cmd (state : Model) : string :=
  "ceph osd pool delete " ++ ValueString (Name state) ++ " " ++ ValueString (Name state)
  ++ " --yes-i-really-really-mean-it".

Definition Delete (env : Env) (c : CephClient) (state : Model) : M (Response Model) :=
  ' (_, err) <- ExecuteCommand env c (delete_cmd state) ;;
  match err with
  | Some e => ret {| Diagnostics := [AddError "Failed to delete pool" (Message e)]; State := Untouched |}
  | None => ret {| Diagnostics := []; State := Untouched |}
  end.

(** The pool type defaults to [replicated] when the plan has none. *)
Definition create_cmd (plan : Model) : string :=
  let poolType :=
    if negb (String_IsNull (Type_ plan)) then ValueString (Type_ plan) else "replicated" in
  "ceph osd pool create " ++ ValueString (Name plan) ++ " "
  ++ FormatInt (ValueInt64 (PgNum plan)) ++ " "
  ++ FormatInt (ValueInt64 (PgpNum plan)) ++ " " ++ poolType.

Definition set_crush_rule_cmd (plan : Model) : string :=
  "ceph osd pool set " ++ ValueString (Name plan) ++ " crush_rule "
  ++ ValueString (CrushRule plan).

(** One of the follow-up commands of [Create]: run [cmd] when [present],
    return with [summary] when it fails, go on with [k] otherwise. *)
Definition Create_step (env : Env) (c : CephClient)
  (present : bool) (cmd summary : string) (k : M (Response Model)) : M (Response Model) :=
  if present then
    ' (_, err) <- ExecuteCommand env c cmd ;;
    match err with
    | Some e => ret {| Diagnostics := [AddError summary (Message e)]; State := Untouched |}
    | None => k
    end
  else k.

Definition Create (env : Env) (c : CephClient) (plan : Model) : M (Response Model) :=
  ' (_, err) <- ExecuteCommand env c (create_cmd plan) ;;
  match err with
  | Some e => ret {| Diagnostics := [AddError "Failed to create pool" (Message e)];
                     State := Untouched |}
  | None =>
      Create_step env c (negb (Int64_IsNull (Size plan)))
        (set_size_cmd plan) "Failed to set pool size"
        (Create_step env c (negb (Int64_IsNull (MinSize plan)))
           (set_min_size_cmd plan) "Failed to set pool min_size"
           (Create_step env c (negb (String_IsNull (CrushRule plan)))
              (set_crush_rule_cmd plan) "Failed to set crush rule"
              (ret {| Diagnostics := []; State := Set_ plan |})))
  end.

End poolResource.

(** ** Pool data source *)

Module poolDataSource.

Record Model := {
  Name : types.String_;
  PgNum : types.Int64;
  Size : types.Int64;
  MinSize : types.Int64;
  Type_ : types.String_
}.

Definition set_Size (m : Model) (v : types.Int64) : Model :=
  {| Name := Name m; PgNum := PgNum m; Size := v; MinSize := MinSize m; Type_ := Type_ m |}.

Definition set_MinSize (m : Model) (v : types.Int64) : Model :=
  {| Name := Name m; PgNum := PgNum m; Size := Size m; MinSize := v; Type_ := Type_ m |}.

Definition set_PgNum (m : Model) (v : types.Int64) : Model :=
  {| Name := Name m; PgNum := v; Size := Size m; MinSize := MinSize m; Type_ := Type_ m |}.

Definition set_Type (m : Model) (v : types.String_) : Model :=
  {| Name := Name m; PgNum := PgNum m; Size := Size m; MinSize := MinSize m; Type_ := v |}.

(** The field updated when [line] contains [key] and has exactly one colon. *)
Definition property (key : string) (set : Model -> types.Int64 -> Model)
  (state : Model) (line : string) : Model :=
  if Contains line key then
    let parts := Split line ":" in
    if (List.length parts =? 2)%nat then
      let '(n, _) := ParseInt10 (TrimSpace (nth 1 parts "")) in
      set state (Int64Value n)
    else state
  else state.

Definition Read_line (state : Model) (line : string) : Model :=
  let state := property "size:" set_Size state line in
  let state := property "min_size:" set_MinSize state line in
  let state := property "pg_num:" set_PgNum state line in
  state.

Definition parse (output : string) (state : Model) : Model :=
  fold_left Read_line (Split output nl) state.

Definition Read (env : Env) (c : CephClient) (config : Model) : M (Response Model) :=
  ' (output, err) <- ExecuteCommand env c ("ceph osd pool get " ++ ValueString (Name config) ++ " all") ;;
  match err with
  | Some e => ret {| Diagnostics := [AddError "Failed to get pool information" (Message e)];
                     State := Untouched |}
  | None =>
      let state := {| Name := Name config; PgNum := Int64Null; Size := Int64Null;
                      MinSize := Int64Null; Type_ := StringNull |} in
      let state := parse output state in
      ' (output, err) <- ExecuteCommand env c ("ceph osd pool get " ++ ValueString (Name config) ++ " type") ;;
      let state :=
        match err with
        | None =>
            let parts := Split output ":" in
            if (List.length parts =? 2)%nat
            then set_Type state (StringValue (TrimSpace (nth 1 parts "")))
            else state
        | Some _ => state
        end in
      ret {| Diagnostics := []; State := Set_ state |}
  end.

End poolDataSource.

(** ** User resource *)

Module userResource.

(** [Caps] holds the entries of the capability map in the order in which
    this run's [range] loop visits them. *)
Record Model := {
  Name : types.String_;
  Caps : list (string * string);
  Key : types.String_
}.

Definition set_Key (m : Model) (v : types.String_) : Model :=
  {| Name := Name m; Caps := Caps m; Key := v |}.

Definition capsArgs (capsMap : list (string * string)) : list string :=
  flat_map (fun '(daemon, caps) => [daemon; caps]) capsMap.

(** The body of the loop that extracts the key in [Create]. *)
Definition Create_line (plan : Model) (line : string) : Model :=
  if Contains line "key =" then
    let parts := Split line "=" in
    if (List.length parts =? 2)%nat
    then set_Key plan (StringValue (TrimSpace (nth 1 parts "")))
    else plan
  else plan.

Definition extract_key (output : string) (plan : Model) : Model :=
  fold_left Create_line (Split output nl) plan.

Definition Create (env : Env) (c : CephClient) (plan : Model) : M (Response Model) :=
  let cmd := "ceph auth get-or-create " ++ ValueString (Name plan) ++ " "
             ++ Join (capsArgs (Caps plan)) " " in
  ' (output, err) <- ExecuteCommand env c cmd ;;
  match err with
  | Some e => ret {| Diagnostics := [AddError "Failed to create user" (Message e)]; State := Untouched |}
  | None => ret {| Diagnostics := []; State := Set_ (extract_key output plan) |}
  end.

Definition Read (env : Env) (c : CephClient) (state : Model) : M (Response Model) :=
  ' (output, err) <- ExecuteCommand env c ("ceph auth get " ++ ValueString (Name state)) ;;
  match err with
  | Some e =>
      if Contains e "entity does not exist"
      then ret {| Diagnostics := []; State := RemoveResource |}
      else ret {| Diagnostics := [AddError "Failed to read user" (Message e)]; State := Untouched |}
  | None =>
      if negb (Contains output (ValueString (Name state)))
      then ret {| Diagnostics := []; State := RemoveResource |}
      else ret {| Diagnostics := []; State := Set_ state |}
  end.

Definition Update (env : Env) (c : CephClient) (req : UpdateRequest Model)
  : M (Response Model) :=
  let plan := req_Plan req in
  let cmd := "ceph auth caps " ++ ValueString (Name plan) ++ " "
             ++ Join (capsArgs (Caps plan)) " " in
  ' (_, err) <- ExecuteCommand env c cmd ;;
  match err with
  | Some e => ret {| Diagnostics := [AddError "Failed to update user caps" (Message e)];
                     State := Untouched |}
  | None => ret {| Diagnostics := []; State := Set_ plan |}
  end.

Definition Delete (env : Env) (c : CephClient) (state : Model) : M (Response Model) :=
  ' (_, err) <- ExecuteCommand env c ("ceph auth del " ++ ValueString (Name state)) ;;
  match err with
  | Some e => ret {| Diagnostics := [AddError "Failed to delete user" (Message e)];
                     State := Untouched |}
  | None => ret {| Diagnostics := []; State := Untouched |}
  end.

End userResource.

(** ** Block image resource *)

Module blockImageResource.

Record Model := {
  Name : types.String_;
  Pool : types.String_;
  Size : types.String_;
  Features : types.Set_
}.

Definition set_Size (m : Model) (v : types.String_) : Model :=
  {| Name := Name m; Pool := Pool m; Size := v; Features := Features m |}.

Section Read.

(** [fmt.Sprintf("%.0f", f)] for the [float64] a number literal decodes to:
    floating point, left to the reader of the model. *)
Variable Sprintf_f0 : json.number -> string.

Definition Read (env : Env) (c : CephClient) (state : Model) : M (Response Model) :=
  let cmd := "rbd info " ++ ValueString (Pool state) ++ "/" ++ ValueString (Name state)
             ++ " --format json" in
  ' (output, err) <- ExecuteCommand env c cmd ;;
  match err with
  | Some e =>
      if Contains e "No such file or directory"
      then ret {| Diagnostics := []; State := RemoveResource |}
      else ret {| Diagnostics := [AddError "Failed to read block image" (Message e)];
                  State := Untouched |}
  | None =>
      match json.Unmarshal output with
      | None => ret {| Diagnostics := [AddError "Failed to parse image info" UnmarshalError];
                       State := Untouched |}
      | Some imageInfo =>
          let state :=
            match json.lookup "size" imageInfo with
            | Some (json.Number size) => set_Size state (StringValue (Sprintf_f0 size ++ "B"))
            | _ => state
            end in
          ret {| Diagnostics := []; State := Set_ state |}
      end
  end.

End Read.

Definition resize_cmd (plan : Model) : string :=
  "rbd resize --size " ++ ValueString (Size plan) ++ " " ++ ValueString (Pool plan)
  ++ "/" ++ ValueString (Name plan).

Definition Update (env : Env) (c : CephClient) (req : UpdateRequest Model)
  : M (Response Model) :=
  let plan := req_Plan req in
  let state := req_State req in
  let resize_step (k : M (Response Model)) : M (Response Model) :=
    if negb (String_Equal (Size plan) (Size state)) then
      ' (_, err) <- ExecuteCommand env c (resize_cmd plan) ;;
      match err with
      | Some e => ret {| Diagnostics := [AddError "Failed to resize block image" (Message e)];
                         State := Untouched |}
      | None => k
      end
    else k in
  resize_step (ret {| Diagnostics := []; State := Set_ plan |}).

(** [plan.Features.ElementsAs(ctx, &features, false)]: the elements of a
    known set; a null set leaves the slice nil; an unknown set is an error
    diagnostic of the framework. *)
Definition ElementsAs (v : types.Set_) : option (list string) :=
  match v with
  | SetValue elems => Some elems
  | SetNull => Some []
  | SetUnknown => None
  end.

(** [Create] answers [None] when it returns on the framework's diagnostic
    for an unknown set of features, whose text is not modelled. *)
Definition Create (env : Env) (c : CephClient) (plan : Model)
  : M (option (Response Model)) :=
  let cmd := "rbd create --size " ++ ValueString (Size plan) ++ " "
             ++ ValueString (Pool plan) ++ "/" ++ ValueString (Name plan) in
  let run (cmd : string) : M (option (Response Model)) :=
    ' (_, err) <- ExecuteCommand env c cmd ;;
    match err with
    | Some e => ret (Some {| Diagnostics := [AddError "Failed to create block image" (Message e)];
                             State := Untouched |})
    | None => ret (Some {| Diagnostics := []; State := Set_ plan |})
    end in
  match Features plan with
  | SetNull => run cmd
  | features =>
      match ElementsAs features with
      | None => ret None
      | Some features =>
          if (0 <? List.length features)%nat
          then run (cmd ++ " --image-feature " ++ Join features ",")
          else run cmd
      end
  end.

Definition Delete (env : Env) (c : CephClient) (state : Model) : M (Response Model) :=
  ' (_, err) <- ExecuteCommand env c
                  ("rbd rm " ++ ValueString (Pool state) ++ "/" ++ ValueString (Name state)) ;;
  match err with
  | Some e => ret {| Diagnostics := [AddError "Failed to delete block image" (Message e)];
                     State := Untouched |}
  | None => ret {| Diagnostics := []; State := Untouched |}
  end.

End blockImageResource.

(** ** Cluster status data source *)

Module clusterStatusDataSource.

Record Model := {
  Health : types.String_;
  OSDCount : types.Int64;
  MonCount : types.Int64;
  MGRCount : types.Int64;
  PoolCount : types.Int64
}.

(** [var state clusterStatusDataSourceModel]: every field null. *)
Definition zero : Model :=
  {| Health := StringNull; OSDCount := Int64Null; MonCount := Int64Null;
     MGRCount := Int64Null; PoolCount := Int64Null |}.

Definition set_Health (m : Model) (v : types.String_) : Model :=
  {| Health := v; OSDCount := OSDCount m; MonCount := MonCount m;
     MGRCount := MGRCount m; PoolCount := PoolCount m |}.

Definition set_OSDCount (m : Model) (v : types.Int64) : Model :=
  {| Health := Health m; OSDCount := v; MonCount := MonCount m;
     MGRCount := MGRCount m; PoolCount := PoolCount m |}.

Definition set_MonCount (m : Model) (v : types.Int64) : Model :=
  {| Health := Health m; OSDCount := OSDCount m; MonCount := v;
     MGRCount := MGRCount m; PoolCount := PoolCount m |}.

Definition set_MGRCount (m : Model) (v : types.Int64) : Model :=
  {| Health := Health m; OSDCount := OSDCount m; MonCount := MonCount m;
     MGRCount := v; PoolCount := PoolCount m |}.

Definition set_PoolCount (m : Model) (v : types.Int64) : Model :=
  {| Health := Health m; OSDCount := OSDCount m; MonCount := MonCount m;
     MGRCount := MGRCount m; PoolCount := v |}.

(** [m[key].(map[string]interface{})] and [m[key].(string)]: the value with
    [ok], or nothing. *)
Definition object_at (key : string) (m : list (string * json.value))
  : option (list (string * json.value)) :=
  match json.lookup key m with
  | Some (json.Object o) => Some o
  | _ => None
  end.

Definition string_at (key : string) (m : list (string * json.value)) : option string :=
  match json.lookup key m with
  | Some (json.Str s) => Some s
  | _ => None
  end.

Definition len (m : list (string * json.value)) : Z := Z.of_nat (List.length m).

(** The nested [if]s on the decoded status. *)
Definition parse_status (status : list (string * json.value)) (state : Model) : Model :=
  let state :=
    match object_at "health" status with
    | Some health =>
        match string_at "status" health with
        | Some healthStatus => set_Health state (StringValue healthStatus)
        | None => state
        end
    | None => state
    end in
  let state :=
    match object_at "servicemap" status with
    | Some services =>
        match object_at "services" services with
        | Some services =>
            let state :=
              match object_at "osd" services with
              | Some osd =>
                  match object_at "daemons" osd with
                  | Some daemons => set_OSDCount state (Int64Value (len daemons))
                  | None => state
                  end
              | None => state
              end in
            let state :=
              match object_at "mon" services with
              | Some mon =>
                  match object_at "daemons" mon with
                  | Some daemons => set_MonCount state (Int64Value (len daemons))
                  | None => state
                  end
              | None => state
              end in
            let state :=
              match object_at "mgr" services with
              | Some mgr =>
                  match object_at "daemons" mgr with
                  | Some daemons => set_MGRCount state (Int64Value (len daemons))
                  | None => state
                  end
              | None => state
              end in
            state
        | None => state
        end
    | None => state
    end in
  state.

Definition Read (env : Env) (c : CephClient) : M (Response Model) :=
  let state := zero in
  ' (output, err) <- ExecuteCommand env c "ceph status --format json" ;;
  match err with
  | Some e => ret {| Diagnostics := [AddError "Failed to get cluster status" (Message e)];
                     State := Untouched |}
  | None =>
      match json.Unmarshal output with
      | None => ret {| Diagnostics := [AddError "Failed to parse cluster status" UnmarshalError];
                       State := Untouched |}
      | Some status =>
          let state := parse_status status state in
          ' (poolOutput, err) <- ExecuteCommand env c "ceph osd pool ls" ;;
          let state :=
            match err with
            | None =>
                let pools := Split (TrimSpace poolOutput) nl in
                set_PoolCount state (Int64Value (Z.of_nat (List.length pools)))
            | Some _ => state
            end in
          ret {| Diagnostics := []; State := Set_ state |}
      end
  end.

End clusterStatusDataSource.

(** ** The provider *)

Module cephProvider.

Record cephProviderModel := {
  ConfigFile : types.String_;
  Keyring : types.String_;
  User : types.String_
}.

(** [cephProvider.Configure]: the client handed to every resource and data
    source. *)
Definition Configure (config : cephProviderModel) : CephClient :=
  Build_CephClient
    (ValueString (ConfigFile config))
    (ValueString (Keyring config))
    (ValueString (User config)).

End cephProvider.

(** ** What the specification says, for comparison with the code *)

(** The flag pair of one connection parameter: omitted when the value is
    empty. *)
Definition spec_flag_pair (flag value : string) : list string :=
  match value with
  | "" => []
  | _ => [flag; value]
  end.

(** The flag pairs of a client in the fixed order: config file, keyring,
    user. *)
Definition spec_connection_flags (c : CephClient) : list string :=
  (spec_flag_pair "--conf" (ConfigFile c)
   ++ spec_flag_pair "--keyring" (Keyring c)
   ++ spec_flag_pair "--user" (User c))%list.

(** [s] occurs in [t]. *)
Definition substring_of (s t : string) : Prop :=
  exists a b, t = a ++ s ++ b.

(** Splitting at a one-byte separator, without the bookkeeping of
    [split_go]. *)
Fixpoint fields (c : ascii) (s : string) : list string :=
  match s with
  | "" => [""]
  | String x s' =>
      if Ascii.eqb x c then "" :: fields c s'
      else match fields c s' with
           | f :: fs => String x f :: fs
           | [] => [String x ""]
           end
  end.

(** ** Clusters and fixtures for the examples *)

Definition no_flags : CephClient := {| ConfigFile := ""; Keyring := ""; User := "" |}.

(** A cluster that accepts every command and prints nothing. *)
Definition quiet : Env := fun _ _ => Output "".

(** A cluster that prints [out] whatever the command. *)
Definition answers (out : string) : Env := fun _ _ => Output out.

(** A cluster on which every command fails with [msg]. *)
Definition failing (msg : string) : Env := fun _ _ => Failure msg.

(** A cluster that answers by the first entry of [script] for the argument
    vector, and fails on vectors the script does not list. *)
Fixpoint scripted (script : list (list string * ExecResult)) (argv : list string) : ExecResult :=
  match script with
  | [] => Failure "exit status 1"
  | (a, r) :: rest => if list_eq_dec string_dec a argv then r else scripted rest argv
  end.

Definition test_pool : poolResource.Model :=
  {| poolResource.Name := StringValue "test-pool";
     poolResource.PgNum := Int64Value 32;
     poolResource.PgpNum := Int64Value 32;
     poolResource.Size := Int64Value 3;
     poolResource.MinSize := Int64Value 2;
     poolResource.Type_ := StringNull;
     poolResource.CrushRule := StringNull |}.

Definition test_user : userResource.Model :=
  {| userResource.Name := StringValue "client.test";
     userResource.Caps := [("mon", "allow r"); ("osd", "allow rw pool=rbd")];
     userResource.Key := StringValue "AQBbJ2Zn" |}.

(** The listing of the specification's example: [size: 3], [min_size: 2]. *)
Definition size3_min2 : string := "size: 3" ++ nl ++ "min_size: 2" ++ nl.

(** The keyring [ceph auth get-or-create] prints; the key is base64 and ends
    with its padding. *)
Definition keyring_output : string :=
  "[client.test]" ++ nl ++ tab ++ "key = AQBbJ2ZnAAAAABAAnGxGqAIn0vA1Bz1WBYP0ZQ==" ++ nl.

(** A status document with two OSDs, one monitor, no manager entry and a
    health that is not an object with a status. *)
Definition status_document : string :=
  "{" ++ dquote ++ "health" ++ dquote ++ ": " ++ dquote ++ "HEALTH_OK" ++ dquote ++ ", "
  ++ dquote ++ "servicemap" ++ dquote ++ ": {" ++ dquote ++ "services" ++ dquote ++ ": {"
  ++ dquote ++ "osd" ++ dquote ++ ": {" ++ dquote ++ "daemons" ++ dquote ++ ": {"
  ++ dquote ++ "0" ++ dquote ++ ": {}, " ++ dquote ++ "1" ++ dquote ++ ": {}}}, "
  ++ dquote ++ "mon" ++ dquote ++ ": {" ++ dquote ++ "daemons" ++ dquote ++ ": {"
  ++ dquote ++ "a" ++ dquote ++ ": {}}}}}}" ++ nl.

(** The status query succeeds, the pool listing is not answered. *)
Definition status_only : Env :=
  fun _ => scripted [(["ceph"; "status"; "--format"; "json"], Output status_document)].

Definition test_image : blockImageResource.Model :=
  {| blockImageResource.Name := StringValue "test-image";
     blockImageResource.Pool := StringValue "rbd";
     blockImageResource.Size := StringValue "1G";
     blockImageResource.Features := SetValue ["layering"] |}.

(** Stands in for the rendering of a float: the integer digits of the
    literal. *)
Definition integer_digits (n : json.number) : string := json.int_digits n.

(** A cluster on which the status is the empty object and no pool is
    listed. *)
Definition empty_cluster : Env :=
  fun _ => scripted [(["ceph"; "status"; "--format"; "json"], Output "{}");
                     (["ceph"; "osd"; "pool"; "ls"], Output nl)].

(** ** The specification's reading of the operations *)

(** The [set] commands a pool plan calls for: one for each of [size] and
    [min_size] that is not null, in this order. *)
Definition spec_pool_sets (c : CephClient) (plan : poolResource.Model) : list (list string) :=
  ((if Int64_IsNull (poolResource.Size plan) then []
    else [buildCmdArgs c ("ceph osd pool set " ++ ValueString (poolResource.Name plan)
                          ++ " size " ++ FormatInt (ValueInt64 (poolResource.Size plan)))])
   ++
   (if Int64_IsNull (poolResource.MinSize plan) then []
    else [buildCmdArgs c ("ceph osd pool set " ++ ValueString (poolResource.Name plan)
                          ++ " min_size " ++ FormatInt (ValueInt64 (poolResource.MinSize plan)))]))%list.

(** The value at the end of a path of keys through nested objects. *)
Fixpoint spec_object_path (path : list string) (m : list (string * json.value))
  : option (list (string * json.value)) :=
  match path with
  | [] => Some m
  | key :: rest =>
      match clusterStatusDataSource.object_at key m with
      | Some o => spec_object_path rest o
      | None => None
      end
  end.

(** [health.status], when it is there and a string. *)
Definition spec_health (status : list (string * json.value)) : types.String_ :=
  match spec_object_path ["health"] status with
  | Some health =>
      match clusterStatusDataSource.string_at "status" health with
      | Some s => StringValue s
      | None => StringNull
      end
  | None => StringNull
  end.

(** The number of entries of [servicemap.services.<service>.daemons], when
    it is there and an object. *)
Definition spec_daemon_count (service : string) (status : list (string * json.value))
  : types.Int64 :=
  match spec_object_path ["servicemap"; "services"; service; "daemons"] status with
  | Some daemons => Int64Value (Z.of_nat (List.length daemons))
  | None => Int64Null
  end.

(** The pool count: the number of fields of the trimmed listing, when the
    listing command succeeds. *)
Definition spec_pool_count (listing : ExecResult) : types.Int64 :=
  match listing with
  | Output poolOutput =>
      Int64Value (Z.of_nat (List.length (Split (TrimSpace poolOutput) nl)))
  | Failure _ => Int64Null
  end.

(** The commands a pool plan calls for at creation: the [create] command,
    then one [set] command for each of [size], [min_size] and [crush_rule]
    that is not null, in this order. *)
Definition spec_pool_create_cmds (c : CephClient) (plan : poolResource.Model)
  : list (list string) :=
  (buildCmdArgs c
     ("ceph osd pool create " ++ ValueString (poolResource.Name plan) ++ " "
      ++ FormatInt (ValueInt64 (poolResource.PgNum plan)) ++ " "
      ++ FormatInt (ValueInt64 (poolResource.PgpNum plan)) ++ " "
      ++ (if String_IsNull (poolResource.Type_ plan) then "replicated"
          else ValueString (poolResource.Type_ plan)))
   :: spec_pool_sets c plan
   ++ (if String_IsNull (poolResource.CrushRule plan) then []
       else [buildCmdArgs c ("ceph osd pool set " ++ ValueString (poolResource.Name plan)
                             ++ " crush_rule " ++ ValueString (poolResource.CrushRule plan))]))%list.

(** The integer a line gives for a property: the line contains [key] and
    has exactly one colon; the integer is what [ParseInt] makes of the
    trimmed text after the colon (0 when that is no integer). *)
Definition spec_line_value (key line : string) : option Z :=
  if Contains line key && (List.length (Split line ":") =? 2)%nat
  then Some (fst (ParseInt10 (TrimSpace (nth 1 (Split line ":") ""))))
  else None.

(** The value of the last of [lines] that gives one, after [acc]. *)
Definition spec_last_value (key : string) (lines : list string) (acc : option Z) : option Z :=
  fold_left (fun acc line => match spec_line_value key line with
                             | Some v => Some v
                             | None => acc
                             end) lines acc.

(** The state with [size] and [min_size] replaced where a value is given. *)
Definition spec_override (size minSize : option Z) (state : poolResource.Model)
  : poolResource.Model :=
  {| poolResource.Name := poolResource.Name state;
     poolResource.PgNum := poolResource.PgNum state;
     poolResource.PgpNum := poolResource.PgpNum state;
     poolResource.Size :=
       match size with Some v => Int64Value v | None => poolResource.Size state end;
     poolResource.MinSize :=
       match minSize with Some v => Int64Value v | None => poolResource.MinSize state end;
     poolResource.Type_ := poolResource.Type_ state;
     poolResource.CrushRule := poolResource.CrushRule state |}.

(** The tokens after the name in [ceph auth get-or-create] and [ceph auth
    caps]: the tokens of every daemon and capability in turn, so that a
    capability with spaces spreads over several arguments; with no
    capability at all, one empty argument. *)
Definition spec_caps_tokens (caps : list (string * string)) : list string :=
  match caps with
  | [] => [""]
  | _ => flat_map (fun '(daemon, cap) => (Split daemon " " ++ Split cap " ")%list) caps
  end.

(** The feature arguments of [rbd create]: none for no feature, else the
    flag and the features joined by commas. *)
Definition spec_feature_args (features : list string) : list string :=
  match features with
  | [] => []
  | _ => ["--image-feature"; Join features ","]
  end.

(** ** Running commands in order up to the first failure *)

(** A step is a command with the summary under which its failure is
    reported.  The steps are executed in order; the first that fails ends
    the run with its diagnostic and no state, the steps after it are not
    executed; when none fails the response is [done]. *)
Fixpoint spec_run_steps {S : Type} (env : Env) (tr : Trace) (done : Response S)
  (steps : list (string * list string)) : Response S * Trace :=
  match steps with
  | [] => (done, tr)
  | (summary, argv) :: rest =>
      match env tr argv with
      | Failure msg =>
          ({| Diagnostics := [AddError summary (Message ("command failed: " ++ msg))];
              State := Untouched |},
           (tr ++ [argv])%list)
      | Output _ => spec_run_steps env (tr ++ [argv])%list done rest
      end
  end.

(** Every step succeeds when executed in order after [tr]. *)
Fixpoint spec_all_succeed (env : Env) (tr : Trace) (steps : list (string * list string))
  : Prop :=
  match steps with
  | [] => True
  | (_, argv) :: rest =>
      (exists out, env tr argv = Output out) /\ spec_all_succeed env (tr ++ [argv])%list rest
  end.

(** The steps of a pool update: [size] and [min_size], each when it is not
    null in the plan. *)
Definition spec_pool_update_steps (c : CephClient) (plan : poolResource.Model)
  : list (string * list string) :=
  ((if Int64_IsNull (poolResource.Size plan) then []
    else [("Failed to update pool size",
           buildCmdArgs c ("ceph osd pool set " ++ ValueString (poolResource.Name plan)
                           ++ " size " ++ FormatInt (ValueInt64 (poolResource.Size plan))))])
   ++
   (if Int64_IsNull (poolResource.MinSize plan) then []
    else [("Failed to update pool min_size",
           buildCmdArgs c ("ceph osd pool set " ++ ValueString (poolResource.Name plan)
                           ++ " min_size "
                           ++ FormatInt (ValueInt64 (poolResource.MinSize plan))))]))%list.

(** The steps of a pool creation: the [create] command, then [size],
    [min_size] and [crush_rule], each when it is not null in the plan. *)
Definition spec_pool_create_steps (c : CephClient) (plan : poolResource.Model)
  : list (string * list string) :=
  (("Failed to create pool",
    buildCmdArgs c
      ("ceph osd pool create " ++ ValueString (poolResource.Name plan) ++ " "
       ++ FormatInt (ValueInt64 (poolResource.PgNum plan)) ++ " "
       ++ FormatInt (ValueInt64 (poolResource.PgpNum plan)) ++ " "
       ++ (if String_IsNull (poolResource.Type_ plan) then "replicated"
           else ValueString (poolResource.Type_ plan))))
   :: (if Int64_IsNull (poolResource.Size plan) then []
       else [("Failed to set pool size",
              buildCmdArgs c ("ceph osd pool set " ++ ValueString (poolResource.Name plan)
                              ++ " size "
                              ++ FormatInt (ValueInt64 (poolResource.Size plan))))])
   ++ (if Int64_IsNull (poolResource.MinSize plan) then []
       else [("Failed to set pool min_size",
              buildCmdArgs c ("ceph osd pool set " ++ ValueString (poolResource.Name plan)
                              ++ " min_size "
                              ++ FormatInt (ValueInt64 (poolResource.MinSize plan))))])
   ++ (if String_IsNull (poolResource.CrushRule plan) then []
       else [("Failed to set crush rule",
              buildCmdArgs c ("ceph osd pool set " ++ ValueString (poolResource.Name plan)
                              ++ " crush_rule "
                              ++ ValueString (poolResource.CrushRule plan)))]))%list.

(** A cluster that accepts the creation of [test-pool] and the setting of
    its size, and fails every other command. *)
Definition size_only : Env :=
  fun _ => scripted
    [(["ceph"; "osd"; "pool"; "create"; "test-pool"; "32"; "32"; "replicated"], Output "");
     (["ceph"; "osd"; "pool"; "set"; "test-pool"; "size"; "3"], Output "")].

(** A pool called [my pool]. *)
Definition spaced_pool : poolResource.Model :=
  {| poolResource.Name := StringValue "my pool";
     poolResource.PgNum := Int64Value 32;
     poolResource.PgpNum := Int64Value 32;
     poolResource.Size := Int64Null;
     poolResource.MinSize := Int64Null;
     poolResource.Type_ := StringNull;
     poolResource.CrushRule := StringNull |}.

(** ** Decoding steps and proof automation *)

(** What a decoding step is expected to do on input [s]: not to run out of
    fuel, and to leave less than it was given. *)
Definition consumes (res : json.result (json.value * string)) (s : string) : Prop :=
  res <> json.OutOfFuel
  /\ forall v r, res = json.Ok (v, r) -> String.length r < String.length s.

Ltac run_commands :=
  repeat match goal with
         | |- context [match ?env ?tr ?args with Output _ => _ | Failure _ => _ end] =>
             destruct (env tr args)
         end.

Ltac settle_outcome :=
  unfold bind, ExecuteCommand, ret;
  repeat match goal with
         | |- context [match ?env ?tr ?args with Output _ => _ | Failure _ => _ end] =>
             destruct (env tr args)
         | |- context [if ?b then _ else _] => destruct b
         | |- context [match json.Unmarshal ?o with _ => _ end] => destruct (json.Unmarshal o)
         end;
  cbn [fst HasError Diagnostics State]; intros; try discriminate; try reflexivity.

(** * Properties *)

(** ** Strings *)

Example Split_examples :
  Split "a:b:c" ":" = ["a"; "b"; "c"] /\ Split "" " " = [""]
  /\ Split "a  b " " " = ["a"; ""; "b"; ""] /\ Split "xabyabab" "ab" = ["x"; "y"; ""; ""].
Proof. repeat split; reflexivity. Qed.

Example TrimSpace_examples :
  TrimSpace (" " ++ tab ++ "3 x" ++ nl ++ bytes [194; 160]) = "3 x"
  /\ TrimSpace (" " ++ nl) = "" /\ TrimSpace "" = "".
Proof. repeat split; reflexivity. Qed.

Example ParseInt10_examples :
  ParseInt10 "3" = (3%Z, None) /\ ParseInt10 "-12" = ((-12)%Z, None)
  /\ ParseInt10 "" = (0%Z, Some ErrSyntax) /\ ParseInt10 "3x" = (0%Z, Some ErrSyntax)
  /\ ParseInt10 "9223372036854775808" = (9223372036854775807%Z, Some ErrRange)
  /\ ParseInt10 "-9223372036854775808" = ((-9223372036854775808)%Z, None)
  /\ ParseInt10 "99999999999999999999999x" = (9223372036854775807%Z, Some ErrRange).
Proof. repeat split; reflexivity. Qed.

Example FormatInt_examples :
  FormatInt 32 = "32" /\ FormatInt 0 = "0" /\ FormatInt (-7) = "-7".
Proof. repeat split; reflexivity. Qed.

Lemma append_nil_r (s : string) : s ++ "" = s.
Proof. induction s as [|c s IH]; simpl; [reflexivity | now rewrite IH]. Qed.

Lemma append_assoc (a b c : string) : (a ++ b) ++ c = a ++ b ++ c.
Proof. induction a as [|x a IH]; simpl; [reflexivity | now rewrite IH]. Qed.

Lemma prefix_app (p s : string) : prefix p s = true <-> exists r, s = p ++ r.
Proof.
  revert s. induction p as [|a p IH]; intros s; simpl.
  - destruct s; split; eauto.
  - destruct s as [|b s]; simpl.
    + split; [discriminate | intros [r Hr]; discriminate].
    + destruct (ascii_dec a b) as [->|Hne].
      * rewrite IH. split; intros [r Hr]; exists r; [now subst | now inversion Hr].
      * split; [discriminate | intros [r Hr]; congruence].
Qed.

Lemma Contains_unfold (s sub : string) :
  Contains s sub
  = prefix sub s || match s with "" => false | String _ s' => Contains s' sub end.
Proof. destruct s; reflexivity. Qed.

(** [strings.Contains] decides occurrence. *)
Lemma Contains_spec (s sub : string) : Contains s sub = true <-> substring_of sub s.
Proof.
  unfold substring_of. induction s as [|c s IH].
  - rewrite Contains_unfold, orb_false_r, prefix_app. split.
    + intros [r Hr]. now exists "", r.
    + intros (a & b & Hab). destruct a; [now exists b | discriminate].
  - rewrite Contains_unfold, orb_true_iff, prefix_app, IH. split.
    + intros [[r Hr] | (a & b & Hab)].
      * now exists "", r.
      * exists (String c a), b. simpl. now rewrite Hab.
    + intros (a & b & Hab). destruct a as [|x a]; simpl in Hab.
      * left. now exists b.
      * right. inversion Hab. now exists a, b.
Qed.

Lemma Contains_false (s sub : string) : Contains s sub = false <-> ~ substring_of sub s.
Proof.
  rewrite <- Contains_spec. destruct (Contains s sub); split; intros; congruence.
Qed.

(** A substring of a substring. *)
Lemma Contains_trans (s mid sub : string) :
  Contains s mid = true -> Contains mid sub = true -> Contains s sub = true.
Proof.
  rewrite !Contains_spec. intros (a & b & ->) (a' & b' & ->).
  exists (a ++ a'), (b' ++ b). now rewrite !append_assoc.
Qed.

Lemma fields_nonempty (c : ascii) (s : string) : fields c s <> [].
Proof.
  induction s as [|x s IH]; simpl; [discriminate|].
  destruct (Ascii.eqb x c); [discriminate|]. destruct (fields c s); discriminate.
Qed.

Lemma prefix_byte (c x : ascii) (s : string) :
  prefix (String c "") (String x s) = Ascii.eqb x c.
Proof.
  simpl. destruct (ascii_dec c x) as [->|Hne].
  - rewrite Ascii.eqb_refl. now destruct s.
  - symmetry. apply Ascii.eqb_neq. congruence.
Qed.

Lemma split_go_fields (c : ascii) (s acc : string) :
  split_go (String c "") 0 acc s
  = match fields c s with
    | f :: fs => (acc ++ f) :: fs
    | [] => [acc]
    end.
Proof.
  revert acc. induction s as [|x s IH]; intros acc.
  - simpl. now rewrite append_nil_r.
  - cbn [split_go fields]. rewrite prefix_byte. destruct (Ascii.eqb x c).
    + cbn [String.length Nat.sub]. rewrite IH, append_nil_r.
      destruct (fields c s) eqn:E; [now apply fields_nonempty in E | reflexivity].
    + rewrite IH. destruct (fields c s) eqn:E; [now apply fields_nonempty in E|].
      now rewrite append_assoc.
Qed.

(** [strings.Split] at a one-byte separator. *)
Lemma Split_fields (c : ascii) (s : string) : Split s (String c "") = fields c s.
Proof.
  unfold Split. rewrite split_go_fields.
  destruct (fields c s) eqn:E; [now apply fields_nonempty in E | reflexivity].
Qed.

Lemma Split_nonempty (c : ascii) (s : string) : Split s (String c "") <> [].
Proof. rewrite Split_fields. apply fields_nonempty. Qed.

(** The fields of two strings joined by the separator are the fields of the
    one followed by the fields of the other. *)
Lemma fields_app (c : ascii) (a b : string) :
  fields c (a ++ String c b) = (fields c a ++ fields c b)%list.
Proof.
  induction a as [|x a IH]; simpl.
  - now rewrite Ascii.eqb_refl.
  - destruct (Ascii.eqb x c); rewrite IH; [reflexivity|].
    destruct (fields c a) eqn:E; [now apply fields_nonempty in E | reflexivity].
Qed.

Lemma Split_app (c : ascii) (a b : string) :
  Split (a ++ String c b) (String c "")
  = (Split a (String c "") ++ Split b (String c ""))%list.
Proof. rewrite !Split_fields. apply fields_app. Qed.

(** A string without the separator is its own single field. *)
Lemma fields_without (c : ascii) (s : string) :
  Contains s (String c "") = false -> fields c s = [s].
Proof.
  induction s as [|x s IH]; [reflexivity|].
  rewrite Contains_unfold, prefix_byte. intros H.
  apply orb_false_iff in H as [Hx Hs]. simpl. rewrite Hx, (IH Hs). reflexivity.
Qed.

Lemma Split_without (c : ascii) (s : string) :
  Contains s (String c "") = false -> Split s (String c "") = [s].
Proof. rewrite Split_fields. apply fields_without. Qed.

(** ** The command builder *)

Example buildCmdArgs_tests :
  buildCmdArgs {| ConfigFile := ""; Keyring := ""; User := "" |} "ceph status"
  = ["ceph"; "status"]
  /\ buildCmdArgs {| ConfigFile := "/etc/ceph/ceph.conf"; Keyring := ""; User := "" |}
       "ceph status"
     = ["ceph"; "status"; "--conf"; "/etc/ceph/ceph.conf"]
  /\ buildCmdArgs {| ConfigFile := ""; Keyring := ""; User := "admin" |} "ceph status"
     = ["ceph"; "status"; "--user"; "admin"]
  /\ buildCmdArgs {| ConfigFile := "/etc/ceph/ceph.conf";
                     Keyring := "/etc/ceph/ceph.client.admin.keyring";
                     User := "admin" |} "ceph status"
     = ["ceph"; "status"; "--conf"; "/etc/ceph/ceph.conf";
        "--keyring"; "/etc/ceph/ceph.client.admin.keyring"; "--user"; "admin"].
Proof. repeat split; reflexivity. Qed.

Lemma nonempty_iff (s : string) : nonempty s = true <-> s <> "".
Proof.
  unfold nonempty. rewrite negb_true_iff. split.
  - intros H ->. discriminate.
  - intros H. now apply String.eqb_neq.
Qed.

Lemma spec_flag_pair_if (flag value : string) :
  spec_flag_pair flag value = if nonempty value then [flag; value] else [].
Proof. now destruct value. Qed.

(** The three appends of [buildCmdArgs] add the flag pairs of the
    specification. *)
Lemma buildCmdArgs_spec (c : CephClient) (cmd : string) :
  buildCmdArgs c cmd = (Split cmd " " ++ spec_connection_flags c)%list.
Proof.
  unfold buildCmdArgs, spec_connection_flags. rewrite !spec_flag_pair_if.
  destruct (nonempty (ConfigFile c)), (nonempty (Keyring c)), (nonempty (User c));
    cbn [app]; rewrite <- ?app_assoc, ?app_nil_r; reflexivity.
Qed.

Lemma buildCmdArgs_nonempty (c : CephClient) (cmd : string) : buildCmdArgs c cmd <> [].
Proof.
  rewrite buildCmdArgs_spec. intros H. apply app_eq_nil in H as [H _].
  now apply (Split_nonempty " "%char) in H.
Qed.

Lemma flag_pair_cases (flag value : string) :
  value <> "" /\ spec_flag_pair flag value = [flag; value]
  \/ value = "" /\ spec_flag_pair flag value = [].
Proof. destruct value; [right | left]; split; (reflexivity || discriminate). Qed.

(** C5. For every client and every logical command, the argument vector is
    the tokens of the command split at spaces, followed by the [--conf]
    pair, then the [--keyring] pair, then the [--user] pair, where each pair
    is present exactly when its field is not empty. *)
Theorem buildCmdArgs_flag_pairs (c : CephClient) (cmd : string) :
  exists conf keyring user : list string,
    buildCmdArgs c cmd = (Split cmd " " ++ conf ++ keyring ++ user)%list
    /\ (ConfigFile c <> "" /\ conf = ["--conf"; ConfigFile c]
        \/ ConfigFile c = "" /\ conf = [])
    /\ (Keyring c <> "" /\ keyring = ["--keyring"; Keyring c]
        \/ Keyring c = "" /\ keyring = [])
    /\ (User c <> "" /\ user = ["--user"; User c]
        \/ User c = "" /\ user = []).
Proof.
  exists (spec_flag_pair "--conf" (ConfigFile c)),
         (spec_flag_pair "--keyring" (Keyring c)),
         (spec_flag_pair "--user" (User c)).
  split; [apply buildCmdArgs_spec|].
  repeat split; apply flag_pair_cases.
Qed.

(** C9, as the specification states it, fails: with no connection parameter
    configured the blank command does not yield the empty token sequence. *)
Lemma buildCmdArgs_blank_not_empty :
  ~ (forall c : CephClient, buildCmdArgs c "" = spec_connection_flags c).
Proof.
  intros H. specialize (H {| ConfigFile := ""; Keyring := ""; User := "" |}).
  discriminate H.
Qed.

(** C9, amended. The command builder yields an argument vector for every
    client and command, never an empty one; for the blank command it is the
    single empty token followed by the configured flag pairs. *)
Theorem buildCmdArgs_blank :
  (forall (c : CephClient) (cmd : string),
      exists first rest, buildCmdArgs c cmd = first :: rest)
  /\ (forall c : CephClient, buildCmdArgs c "" = "" :: spec_connection_flags c).
Proof.
  split.
  - intros c cmd. destruct (buildCmdArgs c cmd) as [|first rest] eqn:E.
    + now apply buildCmdArgs_nonempty in E.
    + now exists first, rest.
  - intros c. now rewrite buildCmdArgs_spec.
Qed.

(** ** Pool deletion *)

Lemma ExecuteCommand_trace (env : Env) (c : CephClient) (cmd : string) (tr : Trace) :
  snd (ExecuteCommand env c cmd tr) = (tr ++ [buildCmdArgs c cmd])%list.
Proof. reflexivity. Qed.

(** C4, as the specification states it, fails: the name of a pool does not
    always appear as an argument of the vector [Delete] executes.  For the
    pool [my pool] the vector is [ceph osd pool delete my pool my pool
    --yes-i-really-really-mean-it]. *)
Lemma pool_Delete_spaced_name_no_argument :
  ~ (forall (env : Env) (c : CephClient) (state : poolResource.Model) (tr : Trace),
        exists argv : list string,
          snd (poolResource.Delete env c state tr) = (tr ++ [argv])%list
          /\ In (ValueString (poolResource.Name state)) argv).
Proof.
  intros H. destruct (H quiet no_flags spaced_pool []) as (argv & Htrace & Hin).
  injection Htrace as <-. cbn in Hin.
  repeat (destruct Hin as [Hin|Hin]; [discriminate Hin|]). exact Hin.
Qed.

Example pool_Delete_spaced_name :
  snd (poolResource.Delete quiet no_flags spaced_pool [])
  = [["ceph"; "osd"; "pool"; "delete"; "my"; "pool"; "my"; "pool";
      "--yes-i-really-really-mean-it"]].
Proof. reflexivity. Qed.

(** C4, amended. For every pool name, [Delete] executes exactly one argument vector:
    that of the command [ceph osd pool delete <name> <name>
    --yes-i-really-really-mean-it].  Its tokens are the four command words,
    the tokens of the name, the tokens of the name once more, and the
    confirmation flag, before the connection flags; a name without a space
    is one token, so that the vector holds it twice, unchanged. *)
Theorem pool_Delete_names_pool_twice
  (env : Env) (c : CephClient) (state : poolResource.Model) (tr : Trace) :
  exists argv : list string,
    snd (poolResource.Delete env c state tr) = (tr ++ [argv])%list
    /\ argv = buildCmdArgs c
                ("ceph osd pool delete " ++ ValueString (poolResource.Name state) ++ " "
                 ++ ValueString (poolResource.Name state) ++ " --yes-i-really-really-mean-it")
    /\ argv = (["ceph"; "osd"; "pool"; "delete"]
               ++ Split (ValueString (poolResource.Name state)) " "
               ++ Split (ValueString (poolResource.Name state)) " "
               ++ ["--yes-i-really-really-mean-it"] ++ spec_connection_flags c)%list
    /\ (Contains (ValueString (poolResource.Name state)) " " = false ->
        argv = (["ceph"; "osd"; "pool"; "delete";
                 ValueString (poolResource.Name state);
                 ValueString (poolResource.Name state);
                 "--yes-i-really-really-mean-it"] ++ spec_connection_flags c)%list).
Proof.
  set (name := ValueString (poolResource.Name state)).
  exists (buildCmdArgs c (poolResource.delete_cmd state)).
  assert (Htokens :
    buildCmdArgs c (poolResource.delete_cmd state)
    = (["ceph"; "osd"; "pool"; "delete"] ++ Split name " " ++ Split name " "
       ++ ["--yes-i-really-really-mean-it"] ++ spec_connection_flags c)%list).
  { rewrite buildCmdArgs_spec. unfold poolResource.delete_cmd. fold name.
    change ("ceph osd pool delete " ++ name ++ " " ++ name ++ " --yes-i-really-really-mean-it")
      with ("ceph osd pool delete" ++ String " " (name ++ String " "
              (name ++ String " " "--yes-i-really-really-mean-it"))).
    rewrite !Split_app. rewrite <- !app_assoc. reflexivity. }
  split; [|split; [reflexivity | split; [exact Htokens|]]].
  - unfold poolResource.Delete, bind.
    destruct (ExecuteCommand env c (poolResource.delete_cmd state) tr) as [[out err] tr'] eqn:E.
    apply (f_equal snd) in E. rewrite ExecuteCommand_trace in E. simpl in E. subst tr'.
    destruct err; reflexivity.
  - intros Hname. rewrite Htokens, (Split_without " "%char name Hname). reflexivity.
Qed.

(** ** Update *)

Example pool_Update_scenario_B :
  snd (poolResource.Update quiet no_flags
         {| req_Plan := poolResource.set_MinSize
                          (poolResource.set_Size test_pool (Int64Value 2)) (Int64Value 1);
            req_State := test_pool |} [])
  = [["ceph"; "osd"; "pool"; "set"; "test-pool"; "size"; "2"];
     ["ceph"; "osd"; "pool"; "set"; "test-pool"; "min_size"; "1"]].
Proof. reflexivity. Qed.

Lemma String_Equal_refl (v : types.String_) : String_Equal v v = true.
Proof. destruct v; simpl; auto using String.eqb_refl. Qed.

(** C2, as the specification states it, fails for pools: an update whose
    plan equals the prior state still executes commands. *)
Lemma pool_Update_reissues_unchanged :
  ~ (forall (env : Env) (c : CephClient) (req : UpdateRequest poolResource.Model) (tr : Trace),
        req_Plan req = req_State req ->
        snd (poolResource.Update env c req tr) = tr).
Proof.
  intros H.
  specialize (H quiet no_flags {| req_Plan := test_pool; req_State := test_pool |} [] eq_refl).
  discriminate H.
Qed.

Lemma image_Update_trace
  (env : Env) (c : CephClient) (req : UpdateRequest blockImageResource.Model) (tr : Trace) :
  snd (blockImageResource.Update env c req tr)
  = (tr ++ if String_Equal (blockImageResource.Size (req_Plan req))
                           (blockImageResource.Size (req_State req))
           then []
           else [buildCmdArgs c
                   ("rbd resize --size "
                    ++ ValueString (blockImageResource.Size (req_Plan req)) ++ " "
                    ++ ValueString (blockImageResource.Pool (req_Plan req)) ++ "/"
                    ++ ValueString (blockImageResource.Name (req_Plan req)))])%list.
Proof.
  destruct req as [plan state]. unfold blockImageResource.Update, bind, ExecuteCommand, ret.
  cbn [req_Plan req_State]. fold (blockImageResource.resize_cmd plan).
  destruct (String_Equal (blockImageResource.Size plan) (blockImageResource.Size state));
    cbn [negb]; run_commands; cbn [snd]; now rewrite ?app_nil_r.
Qed.

Lemma pool_Update_trace
  (env : Env) (c : CephClient) (req : UpdateRequest poolResource.Model) (tr : Trace) :
  exists issued skipped : list (list string),
    snd (poolResource.Update env c req tr) = (tr ++ issued)%list
    /\ spec_pool_sets c (req_Plan req) = (issued ++ skipped)%list
    /\ (HasError (fst (poolResource.Update env c req tr)) = false -> skipped = []).
Proof.
  destruct req as [plan state].
  unfold poolResource.Update, spec_pool_sets, bind, ExecuteCommand, ret.
  cbn [req_Plan req_State].
  fold (poolResource.set_size_cmd plan). fold (poolResource.set_min_size_cmd plan).
  destruct (Int64_IsNull (poolResource.Size plan)),
           (Int64_IsNull (poolResource.MinSize plan));
    cbn [negb]; run_commands; cbn [fst snd HasError Diagnostics app];
    rewrite <- ?app_assoc; cbn [app];
    (do 2 eexists; split; [try reflexivity; symmetry; apply app_nil_r|];
     split; [|intros He; try discriminate He; try reflexivity]);
    first [ reflexivity | symmetry; apply app_nil_r | idtac ].
Qed.

Lemma spec_run_steps_all {S : Type} (env : Env) (done : Response S)
  (steps : list (string * list string)) (tr : Trace) :
  spec_all_succeed env tr steps ->
  spec_run_steps env tr done steps = (done, (tr ++ map snd steps)%list).
Proof.
  revert tr. induction steps as [|[summary argv] steps IH]; intros tr; cbn [spec_run_steps map snd].
  - intros _. now rewrite app_nil_r.
  - intros [[out Hout] Hrest]. rewrite Hout, (IH _ Hrest). now rewrite <- app_assoc.
Qed.

Lemma spec_run_steps_stops {S : Type} (env : Env) (done : Response S)
  (before after : list (string * list string)) (summary : string) (argv : list string)
  (msg : string) (tr : Trace) :
  spec_all_succeed env tr before ->
  env (tr ++ map snd before)%list argv = Failure msg ->
  spec_run_steps env tr done (before ++ (summary, argv) :: after)
  = ({| Diagnostics := [AddError summary (Message ("command failed: " ++ msg))];
        State := Untouched |},
     (tr ++ map snd before ++ [argv])%list).
Proof.
  revert tr. induction before as [|[s a] before IH]; intros tr; cbn [spec_run_steps map snd app].
  - intros _. rewrite app_nil_r. now intros ->.
  - intros [[out Hout] Hrest] Hfail. rewrite Hout.
    rewrite (IH (tr ++ [a])%list Hrest).
    + now rewrite <- !app_assoc.
    + now rewrite <- app_assoc.
Qed.

Lemma pool_Update_run
  (env : Env) (c : CephClient) (req : UpdateRequest poolResource.Model) (tr : Trace) :
  poolResource.Update env c req tr
  = spec_run_steps env tr {| Diagnostics := []; State := Set_ (req_Plan req) |}
      (spec_pool_update_steps c (req_Plan req)).
Proof.
  destruct req as [plan state].
  unfold poolResource.Update, spec_pool_update_steps, bind, ExecuteCommand, ret.
  cbn [req_Plan req_State].
  fold (poolResource.set_size_cmd plan). fold (poolResource.set_min_size_cmd plan).
  destruct (Int64_IsNull (poolResource.Size plan)),
           (Int64_IsNull (poolResource.MinSize plan));
    cbn [negb app spec_run_steps]; run_commands; reflexivity.
Qed.

(** C2, amended. A block image update executes the resize command exactly
    when the planned size is not [Equal] to the prior one, and nothing else.
    A pool update does not consult the prior state: its steps are the
    [size] and the [min_size] command of every such field that is not null
    in the plan, and it runs them in this order up to the first that fails.
    When all succeed it executes all of them, reports no error and stores
    the plan; when one fails after the ones before it succeeded, it has
    executed exactly those and the failing one, reports that failure and
    stores nothing. *)
Theorem Update_commands (env : Env) (c : CephClient) (tr : Trace) :
  (forall req : UpdateRequest blockImageResource.Model,
      snd (blockImageResource.Update env c req tr)
      = (tr ++ if String_Equal (blockImageResource.Size (req_Plan req))
                               (blockImageResource.Size (req_State req))
               then []
               else [buildCmdArgs c
                       ("rbd resize --size "
                        ++ ValueString (blockImageResource.Size (req_Plan req)) ++ " "
                        ++ ValueString (blockImageResource.Pool (req_Plan req)) ++ "/"
                        ++ ValueString (blockImageResource.Name (req_Plan req)))])%list)
  /\ (forall req : UpdateRequest poolResource.Model,
        exists issued skipped : list (list string),
          snd (poolResource.Update env c req tr) = (tr ++ issued)%list
          /\ spec_pool_sets c (req_Plan req) = (issued ++ skipped)%list
          /\ (HasError (fst (poolResource.Update env c req tr)) = false -> skipped = []))
  /\ (forall req : UpdateRequest poolResource.Model,
        map snd (spec_pool_update_steps c (req_Plan req)) = spec_pool_sets c (req_Plan req)
        /\ poolResource.Update env c req tr
           = spec_run_steps env tr {| Diagnostics := []; State := Set_ (req_Plan req) |}
               (spec_pool_update_steps c (req_Plan req))
        /\ (spec_all_succeed env tr (spec_pool_update_steps c (req_Plan req)) ->
            poolResource.Update env c req tr
            = ({| Diagnostics := []; State := Set_ (req_Plan req) |},
               (tr ++ spec_pool_sets c (req_Plan req))%list))
        /\ (forall (before after : list (string * list string))
                   (summary : string) (argv : list string) (msg : string),
              spec_pool_update_steps c (req_Plan req) = (before ++ (summary, argv) :: after)%list ->
              spec_all_succeed env tr before ->
              env (tr ++ map snd before)%list argv = Failure msg ->
              poolResource.Update env c req tr
              = ({| Diagnostics := [AddError summary (Message ("command failed: " ++ msg))];
                    State := Untouched |},
                 (tr ++ map snd before ++ [argv])%list))).
Proof.
  split; [|split]; intros req.
  - apply image_Update_trace.
  - apply pool_Update_trace.
  - assert (Hsets : map snd (spec_pool_update_steps c (req_Plan req))
                    = spec_pool_sets c (req_Plan req)).
    { unfold spec_pool_update_steps, spec_pool_sets.
      now destruct (Int64_IsNull (poolResource.Size (req_Plan req))),
                   (Int64_IsNull (poolResource.MinSize (req_Plan req))). }
    split; [exact Hsets|]. split; [apply pool_Update_run|]. split.
    + intros Hall. rewrite pool_Update_run, <- Hsets. now apply spec_run_steps_all.
    + intros before after summary argv msg Hsteps Hbefore Hfail.
      rewrite pool_Update_run, Hsteps. now apply spec_run_steps_stops.
Qed.

(** A pool update whose [min_size] command fails: both commands were
    executed, the failure is reported and nothing is stored. *)
Example pool_Update_second_command_fails :
  poolResource.Update size_only no_flags {| req_Plan := test_pool; req_State := test_pool |} []
  = ({| Diagnostics := [AddError "Failed to update pool min_size"
                          (Message "command failed: exit status 1")];
        State := Untouched |},
     [["ceph"; "osd"; "pool"; "set"; "test-pool"; "size"; "3"];
      ["ceph"; "osd"; "pool"; "set"; "test-pool"; "min_size"; "2"]]).
Proof. reflexivity. Qed.

(** A pool update whose first command fails executes nothing after it. *)
Example pool_Update_first_command_fails :
  poolResource.Update (failing "exit status 1") no_flags
    {| req_Plan := test_pool; req_State := test_pool |} []
  = ({| Diagnostics := [AddError "Failed to update pool size"
                          (Message "command failed: exit status 1")];
        State := Untouched |},
     [["ceph"; "osd"; "pool"; "set"; "test-pool"; "size"; "3"]]).
Proof. reflexivity. Qed.

(** A block image update whose plan equals the prior state executes
    nothing. *)
Corollary image_Update_unchanged
  (env : Env) (c : CephClient) (state : blockImageResource.Model) (tr : Trace) :
  snd (blockImageResource.Update env c {| req_Plan := state; req_State := state |} tr) = tr.
Proof.
  rewrite image_Update_trace. cbn [req_Plan req_State].
  now rewrite String_Equal_refl, app_nil_r.
Qed.

(** A pool update with nothing failing executes every planned command. *)
Corollary pool_Update_all_commands
  (env : Env) (c : CephClient) (req : UpdateRequest poolResource.Model) (tr : Trace) :
  HasError (fst (poolResource.Update env c req tr)) = false ->
  snd (poolResource.Update env c req tr) = (tr ++ spec_pool_sets c (req_Plan req))%list.
Proof.
  intros Hok. destruct (pool_Update_trace env c req tr) as (issued & skipped & Ht & Hs & Hall).
  rewrite Ht, Hs, (Hall Hok). now rewrite app_nil_r.
Qed.

(** ** Reading a pool *)

(** C1 at the specification's own example: the line [min_size: 2] contains
    [size:] as well, so that the loop stores its value in [size] too, and
    the pool resource and the pool data source both end with size 2 and
    min_size 2 where the specification says size 3. *)
Theorem pool_Read_min_size_overwrites_size
  (c : CephClient) (state : poolResource.Model) (config : poolDataSource.Model) (tr : Trace) :
  fst (poolResource.Read (answers size3_min2) c state tr)
  = {| Diagnostics := [];
       State := Set_ {| poolResource.Name := poolResource.Name state;
                        poolResource.PgNum := poolResource.PgNum state;
                        poolResource.PgpNum := poolResource.PgpNum state;
                        poolResource.Size := Int64Value 2;
                        poolResource.MinSize := Int64Value 2;
                        poolResource.Type_ := poolResource.Type_ state;
                        poolResource.CrushRule := poolResource.CrushRule state |} |}
  /\ fst (poolDataSource.Read (answers size3_min2) c config tr)
     = {| Diagnostics := [];
          State := Set_ {| poolDataSource.Name := poolDataSource.Name config;
                           poolDataSource.PgNum := Int64Null;
                           poolDataSource.Size := Int64Value 2;
                           poolDataSource.MinSize := Int64Value 2;
                           poolDataSource.Type_ := StringNull |} |}.
Proof. split; reflexivity. Qed.

(** In the other order of the two lines the values are the expected ones. *)
Example pool_parse_min_size_first (state : poolResource.Model) :
  poolResource.parse ("min_size: 2" ++ nl ++ "size: 3" ++ nl) state
  = poolResource.set_Size (poolResource.set_MinSize state (Int64Value 2)) (Int64Value 3).
Proof. reflexivity. Qed.

(** A line whose key is not one of the fields still sets [size] when the
    key ends in [size]. *)
Example pool_Read_line_foreign_key (state : poolResource.Model) :
  poolResource.Read_line state "target_size: 7"
  = poolResource.set_Size state (Int64Value 7).
Proof. reflexivity. Qed.

(** A line that does not contain [size:] changes no field of a pool. *)
Lemma pool_Read_line_unrelated (state : poolResource.Model) (line : string) :
  Contains line "size:" = false -> poolResource.Read_line state line = state.
Proof.
  intros H. unfold poolResource.Read_line. rewrite H.
  destruct (Contains line "min_size:") eqn:E; [|reflexivity].
  rewrite (Contains_trans line "min_size:" "size:" E eq_refl) in H. discriminate H.
Qed.

(** In particular a line without a colon changes no field. *)
Lemma pool_Read_line_no_colon (state : poolResource.Model) (line : string) :
  Contains line ":" = false -> poolResource.Read_line state line = state.
Proof.
  intros H. apply pool_Read_line_unrelated.
  destruct (Contains line "size:") eqn:E; [|reflexivity].
  rewrite (Contains_trans line "size:" ":" E eq_refl) in H. discriminate H.
Qed.

(** ** Creating a user *)

(** C8 at a key with base64 padding: the line has more than one [=], is cut
    into more than two parts and is skipped, so that the state [Create]
    stores carries the key of the plan, not the key printed. *)
Theorem user_Create_padded_key_not_extracted
  (c : CephClient) (plan : userResource.Model) (tr : Trace) :
  fst (userResource.Create (answers keyring_output) c plan tr)
  = {| Diagnostics := []; State := Set_ plan |}.
Proof. destruct plan. reflexivity. Qed.

Example user_Create_unpadded_key (plan : userResource.Model) :
  userResource.extract_key ("[client.test]" ++ nl ++ tab ++ "key = AQBbJ2Zn" ++ nl) plan
  = userResource.set_Key plan (StringValue "AQBbJ2Zn").
Proof. reflexivity. Qed.

(** A marked line with a single [=] sets the key to what follows the [=],
    trimmed. *)
Lemma user_Create_line_single_equals (plan : userResource.Model) (lhs rhs : string) :
  Contains (lhs ++ "=" ++ rhs) "key =" = true ->
  Contains lhs "=" = false ->
  Contains rhs "=" = false ->
  userResource.Create_line plan (lhs ++ "=" ++ rhs)
  = userResource.set_Key plan (StringValue (TrimSpace rhs)).
Proof.
  intros Hkey Hl Hr. unfold userResource.Create_line. rewrite Hkey.
  change (lhs ++ "=" ++ rhs) with (lhs ++ String "=" rhs).
  rewrite Split_app, (Split_without "="%char lhs Hl), (Split_without "="%char rhs Hr).
  reflexivity.
Qed.

(** ** Reading a user *)

Lemma user_Read_result (env : Env) (c : CephClient) (state : userResource.Model) (tr : Trace) :
  fst (userResource.Read env c state tr)
  = match env tr (buildCmdArgs c ("ceph auth get " ++ ValueString (userResource.Name state))) with
    | Failure msg =>
        if Contains ("command failed: " ++ msg) "entity does not exist"
        then {| Diagnostics := []; State := RemoveResource |}
        else {| Diagnostics := [AddError "Failed to read user"
                                  (Message ("command failed: " ++ msg))];
                State := Untouched |}
    | Output output =>
        if Contains output (ValueString (userResource.Name state))
        then {| Diagnostics := []; State := Set_ state |}
        else {| Diagnostics := []; State := RemoveResource |}
    end.
Proof.
  unfold userResource.Read, bind, ExecuteCommand, ret.
  destruct (env tr _) as [output|msg]; cbn [fst].
  - now destruct (Contains output _).
  - now destruct (Contains _ "entity does not exist").
Qed.

(** The wrapping [command failed: ] adds no occurrence of the marker. *)
Lemma wrapped_message_marker (msg : string) :
  Contains ("command failed: " ++ msg) "entity does not exist"
  = Contains msg "entity does not exist".
Proof. reflexivity. Qed.

(** C7. When the query of [Read] fails, with whatever message, the user is
    removed from the state, without a diagnostic, if the error message
    contains [entity does not exist]; otherwise the error is reported as
    [Failed to read user] and the state is left as it was. *)
Theorem user_Read_execution_error
  (env : Env) (c : CephClient) (state : userResource.Model) (tr : Trace) (msg : string) :
  env tr (buildCmdArgs c ("ceph auth get " ++ ValueString (userResource.Name state)))
  = Failure msg ->
  (substring_of "entity does not exist" ("command failed: " ++ msg) ->
   fst (userResource.Read env c state tr)
   = {| Diagnostics := []; State := RemoveResource |})
  /\ (~ substring_of "entity does not exist" ("command failed: " ++ msg) ->
      fst (userResource.Read env c state tr)
      = {| Diagnostics := [AddError "Failed to read user"
                             (Message ("command failed: " ++ msg))];
           State := Untouched |}).
Proof.
  intros Hrun. rewrite user_Read_result, Hrun. split; intros H.
  - apply Contains_spec in H. now rewrite H.
  - apply Contains_false in H. now rewrite H.
Qed.

Lemma user_Read_execution_error_witness :
  fst (userResource.Read (failing "Error ENOENT: entity does not exist") no_flags test_user [])
  = {| Diagnostics := []; State := RemoveResource |}
  /\ fst (userResource.Read (failing "exit status 1") no_flags test_user [])
     = {| Diagnostics := [AddError "Failed to read user"
                            (Message "command failed: exit status 1")];
          State := Untouched |}.
Proof.
  split.
  - apply (user_Read_execution_error
             (failing "Error ENOENT: entity does not exist") no_flags test_user []
             "Error ENOENT: entity does not exist" eq_refl).
    exists "command failed: Error ENOENT: ", "". reflexivity.
  - apply (user_Read_execution_error (failing "exit status 1") no_flags test_user []
             "exit status 1" eq_refl).
    apply Contains_false. reflexivity.
Defined.

(** C10. When the query of [Read] succeeds and its output does not contain
    the name of the user, the user is removed from the state, without a
    diagnostic. *)
Theorem user_Read_name_not_in_output
  (env : Env) (c : CephClient) (state : userResource.Model) (tr : Trace) (output : string) :
  env tr (buildCmdArgs c ("ceph auth get " ++ ValueString (userResource.Name state)))
  = Output output ->
  ~ substring_of (ValueString (userResource.Name state)) output ->
  fst (userResource.Read env c state tr) = {| Diagnostics := []; State := RemoveResource |}.
Proof.
  intros Hrun H. rewrite user_Read_result, Hrun.
  apply Contains_false in H. now rewrite H.
Qed.

Lemma user_Read_name_not_in_output_witness :
  fst (userResource.Read (answers "[client.other]") no_flags test_user [])
  = {| Diagnostics := []; State := RemoveResource |}.
Proof.
  apply (user_Read_name_not_in_output (answers "[client.other]") no_flags test_user []
           "[client.other]" eq_refl).
  apply Contains_false. reflexivity.
Defined.

(** The state is kept when the output names the user. *)
Lemma user_Read_name_in_output
  (env : Env) (c : CephClient) (state : userResource.Model) (tr : Trace) (output : string) :
  env tr (buildCmdArgs c ("ceph auth get " ++ ValueString (userResource.Name state)))
  = Output output ->
  substring_of (ValueString (userResource.Name state)) output ->
  fst (userResource.Read env c state tr) = {| Diagnostics := []; State := Set_ state |}.
Proof.
  intros Hrun H. rewrite user_Read_result, Hrun.
  apply Contains_spec in H. now rewrite H.
Qed.

(** ** The decoder always answers *)

Import json.

Lemma skip_space_length (s : string) : String.length (skip_space s) <= String.length s.
Proof.
  induction s as [|c s IH]; simpl; [lia|]. destruct (is_space c); simpl; lia.
Qed.

Lemma eat_length (c : ascii) (s r : string) :
  eat c s = Some r -> String.length s = S (String.length r).
Proof.
  destruct s as [|x s]; simpl; [discriminate|].
  destruct (Ascii.eqb x c); [|discriminate]. now intros [= ->].
Qed.

Lemma drop_length (n : nat) (s : string) : String.length (drop n s) <= String.length s.
Proof.
  revert s. induction n as [|n IH]; intros [|c s]; simpl; try lia.
  specialize (IH s). lia.
Qed.

Lemma scan_string_length (s raw r : string) :
  scan_string s = Some (raw, r) -> String.length r < String.length s.
Proof.
  remember (String.length s) as n eqn:Hn. revert s raw r Hn.
  induction n as [n IH] using lt_wf_ind. intros [|c s] raw r Hn; simpl; [discriminate|].
  destruct (Ascii.eqb c "034"); [intros [= _ ->]; simpl in Hn; lia|].
  destruct (Ascii.eqb c "\").
  - destruct s as [|e s]; [discriminate|].
    destruct (scan_string s) as [[raw' r']|] eqn:E; [|discriminate].
    intros [= _ ->]. simpl in Hn. specialize (IH (String.length s) ltac:(lia) s raw' r eq_refl E).
    simpl. lia.
  - destruct (scan_string s) as [[raw' r']|] eqn:E; [|discriminate].
    intros [= _ ->]. simpl in Hn. specialize (IH (String.length s) ltac:(lia) s raw' r eq_refl E).
    simpl. lia.
Qed.

Lemma parse_string_length (s v r : string) :
  parse_string s = Some (v, r) -> String.length r < String.length s.
Proof.
  unfold parse_string. destruct (scan_string s) as [[raw r']|] eqn:E; [|discriminate].
  destruct (unquote Nothing raw); [|discriminate]. intros [= _ ->].
  eapply scan_string_length, E.
Qed.

Lemma digits_length (s d r : string) :
  digits s = (d, r) -> String.length s = String.length d + String.length r.
Proof.
  revert d r. induction s as [|c s IH]; simpl; intros d r.
  - now intros [= <- <-].
  - destruct (is_digit c).
    + destruct (digits s) as [d' r']. intros [= <- <-]. simpl. now rewrite (IH d' r' eq_refl).
    + now intros [= <- <-].
Qed.

Lemma digits1_length (s d r : string) :
  digits1 s = Some (d, r) -> String.length r < String.length s.
Proof.
  unfold digits1. destruct (digits s) as [d' r'] eqn:E. apply digits_length in E.
  destruct d'; [discriminate|]. intros [= <- <-]. simpl in E. lia.
Qed.

Lemma scan_number_length (s r : string) (n : number) :
  scan_number s = Some (n, r) -> String.length r < String.length s.
Proof.
  unfold scan_number.
  destruct (eat "-" s) as [s0|] eqn:Hsign.
  all: match goal with
       | |- context [match eat "0" ?x with _ => _ end] =>
           assert (Hs : String.length x <= String.length s)
             by (try (apply eat_length in Hsign); lia); revert Hs; generalize x
       end; clear; intros s0 Hs.
  all: assert (Hint : forall i s1,
          match eat "0" s0 with Some s' => Some ("0", s') | None => digits1 s0 end = Some (i, s1) ->
          String.length s1 < String.length s0)
    by (intros i s1; destruct (eat "0" s0) eqn:E;
        [intros [= <- <-]; apply eat_length in E; lia | apply digits1_length]).
  all: destruct (match eat "0" s0 with Some s' => Some ("0", s') | None => digits1 s0 end)
         as [[i s1]|]; [|discriminate]; specialize (Hint i s1 eq_refl).
  all: assert (Hfrac : forall f s2,
          match eat "." s1 with Some s' => digits1 s' | None => Some ("", s1) end = Some (f, s2) ->
          String.length s2 <= String.length s1)
    by (intros f s2; destruct (eat "." s1) eqn:E;
        [intros H; apply digits1_length in H; apply eat_length in E; lia
        | intros [= <- <-]; lia]).
  all: destruct (match eat "." s1 with Some s' => digits1 s' | None => Some ("", s1) end)
         as [[f s2]|]; [|discriminate]; specialize (Hfrac f s2 eq_refl).
  all: destruct (match eat "e" s2 with Some s' => Some s' | None => eat "E" s2 end) as [s3|] eqn:He;
    [|intros [= _ <-]; lia].
  all: assert (Hs3 : String.length s3 < String.length s2)
    by (destruct (eat "e" s2) eqn:E1;
        [injection He as <-; apply eat_length in E1; lia | apply eat_length in He; lia]).
  all: destruct (eat "-" s3) as [s4|] eqn:Hm;
    [apply eat_length in Hm
    |destruct (eat "+" s3) as [s4|] eqn:Hp; [apply eat_length in Hp|]].
  all: match goal with
       | |- context [digits1 ?x] => destruct (digits1 x) as [[e r']|] eqn:Hd; [|discriminate]
       end; apply digits1_length in Hd; intros [= _ <-]; lia.
Qed.

Lemma consumes_Invalid (s : string) : consumes Invalid s.
Proof. split; [discriminate | intros v r H; discriminate H]. Qed.

Lemma consumes_Ok (v : value) (r s : string) :
  String.length r < String.length s -> consumes (Ok (v, r)) s.
Proof. intros H. split; [discriminate | now intros v' r' [= _ <-]]. Qed.

Lemma consumes_weaken (res : result (value * string)) (s s' : string) :
  String.length s <= String.length s' -> consumes res s -> consumes res s'.
Proof. intros Hle [H1 H2]. split; [exact H1 | intros v r E; specialize (H2 v r E); lia]. Qed.

Lemma parse_fuel (fuel : nat) :
  (forall depth s, 2 * String.length s < fuel -> consumes (parse_value fuel depth s) s)
  /\ (forall depth acc s,
        2 * String.length s < fuel -> consumes (parse_members fuel depth acc s) s)
  /\ (forall depth acc s,
        2 * String.length s + 1 < fuel -> consumes (parse_elements fuel depth acc s) s).
Proof.
  induction fuel as [|f (IHv & IHm & IHe)]; [split; [|split]; intros; lia|].
  split; [|split].
  - (* parse_value *)
    intros depth s Hlen. cbn [parse_value].
    pose proof (skip_space_length s) as Hsp.
    destruct (skip_space s) as [|c s1]; [apply consumes_Invalid|]. cbn [String.length] in Hsp.
    destruct (Ascii.eqb c "{").
    { destruct (maxNestingDepth <? S depth)%nat; [apply consumes_Invalid|].
      destruct (eat "}" (skip_space s1)) as [s2|] eqn:E.
      - apply eat_length in E. pose proof (skip_space_length s1). apply consumes_Ok. lia.
      - apply consumes_weaken with s1; [lia | apply IHm; lia]. }
    destruct (Ascii.eqb c "[").
    { destruct (maxNestingDepth <? S depth)%nat; [apply consumes_Invalid|].
      destruct (eat "]" (skip_space s1)) as [s2|] eqn:E.
      - apply eat_length in E. pose proof (skip_space_length s1). apply consumes_Ok. lia.
      - apply consumes_weaken with s1; [lia | apply IHe; lia]. }
    destruct (Ascii.eqb c "034").
    { destruct (parse_string s1) as [[v r]|] eqn:E; [|apply consumes_Invalid].
      apply parse_string_length in E. apply consumes_Ok. lia. }
    pose proof (drop_length 3 s1). pose proof (drop_length 4 s1).
    destruct (prefix "true" (String c s1)); [apply consumes_Ok; lia|].
    destruct (prefix "false" (String c s1)); [apply consumes_Ok; lia|].
    destruct (prefix "null" (String c s1)); [apply consumes_Ok; lia|].
    destruct (scan_number (String c s1)) as [[n r]|] eqn:E; [|apply consumes_Invalid].
    apply scan_number_length in E. cbn [String.length] in E.
    destruct (overflows_float64 n); [apply consumes_Invalid | apply consumes_Ok; lia].
  - (* parse_members *)
    intros depth acc s Hlen. cbn [parse_members].
    pose proof (skip_space_length s) as Hsp.
    destruct (eat "034" (skip_space s)) as [s1|] eqn:E1; [|apply consumes_Invalid].
    apply eat_length in E1.
    destruct (parse_string s1) as [[k s2]|] eqn:E2; [|apply consumes_Invalid].
    apply parse_string_length in E2. pose proof (skip_space_length s2) as Hsp2.
    destruct (eat ":" (skip_space s2)) as [s3|] eqn:E3; [|apply consumes_Invalid].
    apply eat_length in E3.
    destruct (IHv depth s3 ltac:(lia)) as [Hfuel Hrest].
    destruct (parse_value f depth s3) as [[v s4]| |]; [|apply consumes_Invalid|congruence].
    specialize (Hrest v s4 eq_refl). pose proof (skip_space_length s4) as Hsp4.
    destruct (eat "," (skip_space s4)) as [s5|] eqn:E5.
    + apply eat_length in E5. apply consumes_weaken with s5; [lia | apply IHm; lia].
    + destruct (eat "}" (skip_space s4)) as [s5|] eqn:E6; [|apply consumes_Invalid].
      apply eat_length in E6. apply consumes_Ok. lia.
  - (* parse_elements *)
    intros depth acc s Hlen. cbn [parse_elements].
    destruct (IHv depth s ltac:(lia)) as [Hfuel Hrest].
    destruct (parse_value f depth s) as [[v s1]| |]; [|apply consumes_Invalid|congruence].
    specialize (Hrest v s1 eq_refl). pose proof (skip_space_length s1) as Hsp1.
    destruct (eat "," (skip_space s1)) as [s2|] eqn:E2.
    + apply eat_length in E2. apply consumes_weaken with s2; [lia | apply IHe; lia].
    + destruct (eat "]" (skip_space s1)) as [s2|] eqn:E3; [|apply consumes_Invalid].
      apply eat_length in E3. apply consumes_Ok. lia.
Qed.

(** The fuel [decode] starts with is enough for every document. *)
Lemma decode_fuel_suffices (data : string) : decode data <> OutOfFuel.
Proof.
  unfold decode.
  destruct (proj1 (parse_fuel (S (2 * String.length data))) 0 data ltac:(lia)) as [H _].
  destruct (parse_value (S (2 * String.length data)) 0 data) as [[v rest]| |];
    [|discriminate|congruence].
  destruct (skip_space rest), v; discriminate.
Qed.

(** ** Reading a block image and the cluster status *)

Lemma parse_status_fields (status : list (string * json.value)) :
  clusterStatusDataSource.parse_status status clusterStatusDataSource.zero
  = {| clusterStatusDataSource.Health := spec_health status;
       clusterStatusDataSource.OSDCount := spec_daemon_count "osd" status;
       clusterStatusDataSource.MonCount := spec_daemon_count "mon" status;
       clusterStatusDataSource.MGRCount := spec_daemon_count "mgr" status;
       clusterStatusDataSource.PoolCount := Int64Null |}.
Proof.
  unfold clusterStatusDataSource.parse_status, spec_health, spec_daemon_count,
    clusterStatusDataSource.len.
  cbn [spec_object_path].
  repeat match goal with
         | |- context [clusterStatusDataSource.object_at ?k ?m] =>
             destruct (clusterStatusDataSource.object_at k m)
         | |- context [clusterStatusDataSource.string_at ?k ?m] =>
             destruct (clusterStatusDataSource.string_at k m)
         end; reflexivity.
Qed.

Lemma cluster_Read_result (env : Env) (c : CephClient) (tr : Trace) :
  fst (clusterStatusDataSource.Read env c tr)
  = match env tr (buildCmdArgs c "ceph status --format json") with
    | Failure msg =>
        {| Diagnostics := [AddError "Failed to get cluster status"
                             (Message ("command failed: " ++ msg))];
           State := Untouched |}
    | Output output =>
        match json.Unmarshal output with
        | None =>
            {| Diagnostics := [AddError "Failed to parse cluster status" UnmarshalError];
               State := Untouched |}
        | Some status =>
            {| Diagnostics := [];
               State := Set_
                 {| clusterStatusDataSource.Health := spec_health status;
                    clusterStatusDataSource.OSDCount := spec_daemon_count "osd" status;
                    clusterStatusDataSource.MonCount := spec_daemon_count "mon" status;
                    clusterStatusDataSource.MGRCount := spec_daemon_count "mgr" status;
                    clusterStatusDataSource.PoolCount :=
                      spec_pool_count
                        (env (tr ++ [buildCmdArgs c "ceph status --format json"])%list
                             (buildCmdArgs c "ceph osd pool ls")) |} |}
        end
    end.
Proof.
  unfold clusterStatusDataSource.Read, bind, ExecuteCommand, ret.
  destruct (env tr _) as [output|msg]; [|reflexivity].
  destruct (json.Unmarshal output) as [status|]; [|reflexivity].
  rewrite parse_status_fields.
  destruct (env _ (buildCmdArgs c "ceph osd pool ls")); reflexivity.
Qed.

(** C6, as the specification states it, fails: a snapshot is not always
    produced. *)
Lemma cluster_Read_aborts_without_status :
  ~ (forall (env : Env) (c : CephClient) (tr : Trace),
        exists snapshot : clusterStatusDataSource.Model,
          State (fst (clusterStatusDataSource.Read env c tr)) = Set_ snapshot).
Proof.
  intros H. destruct (H (failing "exit status 1") no_flags []) as [snapshot Hs].
  discriminate Hs.
Qed.

(** C6, amended. When the status query succeeds and prints a document that
    [json.Unmarshal] accepts, [Read] reports no error and stores a snapshot
    in which every field is looked up on its own: the health is
    [health.status] or null, each daemon count is the size of its own
    [servicemap.services.<service>.daemons] or null, and the pool count is
    the length of the pool listing or null when the listing command fails. *)
Theorem cluster_Read_best_effort
  (env : Env) (c : CephClient) (tr : Trace)
  (output : string) (status : list (string * json.value)) :
  env tr (buildCmdArgs c "ceph status --format json") = Output output ->
  json.Unmarshal output = Some status ->
  fst (clusterStatusDataSource.Read env c tr)
  = {| Diagnostics := [];
       State := Set_
         {| clusterStatusDataSource.Health := spec_health status;
            clusterStatusDataSource.OSDCount := spec_daemon_count "osd" status;
            clusterStatusDataSource.MonCount := spec_daemon_count "mon" status;
            clusterStatusDataSource.MGRCount := spec_daemon_count "mgr" status;
            clusterStatusDataSource.PoolCount :=
              spec_pool_count
                (env (tr ++ [buildCmdArgs c "ceph status --format json"])%list
                     (buildCmdArgs c "ceph osd pool ls")) |} |}.
Proof. intros Hrun Hjson. now rewrite cluster_Read_result, Hrun, Hjson. Qed.

Lemma cluster_Read_best_effort_witness :
  fst (clusterStatusDataSource.Read status_only no_flags [])
  = {| Diagnostics := [];
       State := Set_
         {| clusterStatusDataSource.Health := StringNull;
            clusterStatusDataSource.OSDCount := Int64Value 2;
            clusterStatusDataSource.MonCount := Int64Value 1;
            clusterStatusDataSource.MGRCount := Int64Null;
            clusterStatusDataSource.PoolCount := Int64Null |} |}.
Proof.
  exact (cluster_Read_best_effort status_only no_flags [] status_document
           (match json.Unmarshal status_document with Some m => m | None => [] end)
           eq_refl eq_refl).
Defined.

Lemma image_Read_result
  (Sprintf_f0 : json.number -> string)
  (env : Env) (c : CephClient) (state : blockImageResource.Model) (tr : Trace) :
  fst (blockImageResource.Read Sprintf_f0 env c state tr)
  = match env tr (buildCmdArgs c ("rbd info " ++ ValueString (blockImageResource.Pool state)
                                  ++ "/" ++ ValueString (blockImageResource.Name state)
                                  ++ " --format json")) with
    | Failure msg =>
        if Contains ("command failed: " ++ msg) "No such file or directory"
        then {| Diagnostics := []; State := RemoveResource |}
        else {| Diagnostics := [AddError "Failed to read block image"
                                  (Message ("command failed: " ++ msg))];
                State := Untouched |}
    | Output output =>
        match json.Unmarshal output with
        | None =>
            {| Diagnostics := [AddError "Failed to parse image info" UnmarshalError];
               State := Untouched |}
        | Some imageInfo =>
            {| Diagnostics := [];
               State := Set_
                 match json.lookup "size" imageInfo with
                 | Some (json.Number size) =>
                     blockImageResource.set_Size state (StringValue (Sprintf_f0 size ++ "B"))
                 | _ => state
                 end |}
        end
    end.
Proof.
  unfold blockImageResource.Read, bind, ExecuteCommand, ret.
  destruct (env tr _) as [output|msg]; cbn [fst].
  - now destruct (json.Unmarshal output).
  - now destruct (Contains _ "No such file or directory").
Qed.




Example image_document_without_size :
  json.Unmarshal ("{" ++ dquote ++ "name" ++ dquote ++ ": " ++ dquote ++ "img" ++ dquote ++ "}")
  = Some [("name", json.Str "img")].
Proof. reflexivity. Qed.

Example image_document_with_size :
  json.Unmarshal ("{" ++ dquote ++ "size" ++ dquote ++ ": 1073741824}")
  = Some [("size", json.Number {| negative := false; int_digits := "1073741824";
                                  frac_digits := ""; exponent := 0 |})].
Proof. reflexivity. Qed.

Example documents_rejected :
  json.Unmarshal "not json" = None /\ json.Unmarshal "" = None
  /\ json.Unmarshal "[1]" = None /\ json.Unmarshal "{} x" = None
  /\ json.Unmarshal ("{" ++ dquote ++ "size" ++ dquote ++ ": 1e999}") = None.
Proof. repeat split; reflexivity. Qed.

Example document_null : json.Unmarshal "null" = Some [].
Proof. reflexivity. Qed.

(** * Further properties of the provider *)

(** ** Splitting and joining *)

Lemma Join_cons (e : string) (rest : list string) (sep : string) :
  rest <> [] -> Join (e :: rest) sep = e ++ sep ++ Join rest sep.
Proof. destruct rest; [congruence | reflexivity]. Qed.

(** Joining the fields with the separator gives the string back. *)
Lemma Join_fields (c : ascii) (s : string) : Join (fields c s) (String c "") = s.
Proof.
  induction s as [|x s IH]; [reflexivity|]. cbn [fields].
  destruct (Ascii.eqb_spec x c) as [->|Hne].
  - rewrite Join_cons by apply fields_nonempty. now rewrite IH.
  - destruct (fields c s) as [|f fs] eqn:E; [now apply fields_nonempty in E|].
    destruct fs as [|f' fs].
    + cbn [Join] in *. now rewrite IH.
    + rewrite Join_cons by discriminate. rewrite Join_cons in IH by discriminate.
      cbn [append] in *. now rewrite IH.
Qed.

Lemma Join_app (l1 l2 : list string) (sep : string) :
  l1 <> [] -> l2 <> [] ->
  Join (l1 ++ l2) sep = Join l1 sep ++ sep ++ Join l2 sep.
Proof.
  intros H1 H2. induction l1 as [|e l1 IH]; [congruence|].
  destruct l1 as [|e' l1].
  - cbn [app]. now rewrite Join_cons.
  - change ((e :: e' :: l1) ++ l2)%list with (e :: ((e' :: l1) ++ l2))%list.
    rewrite Join_cons by discriminate. rewrite IH by discriminate.
    rewrite (Join_cons e (e' :: l1)) by discriminate. now rewrite !append_assoc.
Qed.

(** The fields of a joined list are the fields of its elements. *)
Lemma fields_Join (c : ascii) (l : list string) :
  l <> [] -> fields c (Join l (String c "")) = flat_map (fields c) l.
Proof.
  intros Hl. induction l as [|e l IH]; [congruence|].
  destruct l as [|e' l].
  - cbn [Join flat_map]. now rewrite app_nil_r.
  - rewrite Join_cons by discriminate. cbn [append flat_map].
    rewrite fields_app, IH by discriminate. reflexivity.
Qed.

(** The first field starts the string. *)
Lemma fields_head (c : ascii) (s g : string) (gs : list string) :
  fields c s = g :: gs -> exists b, s = g ++ b.
Proof.
  revert g gs. induction s as [|x s IH]; intros g gs; cbn [fields].
  - intros [= <- <-]. now exists "".
  - destruct (Ascii.eqb x c).
    + intros [= <- <-]. now exists (String x s).
    + destruct (fields c s) as [|h hs] eqn:E; [now apply fields_nonempty in E|].
      intros [= <- <-]. destruct (IH h hs eq_refl) as [b ->]. now exists b.
Qed.

(** Every field is a piece of the string. *)
Lemma fields_substring (c : ascii) (s f : string) :
  In f (fields c s) -> substring_of f s.
Proof.
  revert f. induction s as [|x s IH]; intros f; cbn [fields].
  - intros [<-|[]]. now exists "", "".
  - destruct (Ascii.eqb x c).
    + intros [<-|Hin].
      * now exists "", (String x s).
      * destruct (IH f Hin) as (a & b & ->). now exists (String x a), b.
    + destruct (fields c s) as [|g gs] eqn:E; [now apply fields_nonempty in E|].
      intros [<-|Hin].
      * destruct (fields_head c s g gs E) as [b ->]. now exists "", b.
      * destruct (IH f (or_intror Hin)) as (a & b & ->). now exists (String x a), b.
Qed.

Lemma Contains_digits (d : Decimal.uint) (c : ascii) :
  is_digit c = false -> Contains (NilEmpty.string_of_uint d) (String c "") = false.
Proof.
  intros Hc. induction d; cbn [NilEmpty.string_of_uint]; [reflexivity|..];
    rewrite Contains_unfold, prefix_byte, IHd, orb_false_r; apply Ascii.eqb_neq;
    intros <-; vm_compute in Hc; discriminate Hc.
Qed.

(** A rendered integer holds digits and at most a leading minus sign. *)
Lemma FormatInt_no_space (n : Z) : Contains (FormatInt n) " " = false.
Proof.
  unfold FormatInt, NilZero.string_of_int.
  destruct (Z.to_int n) as [d|d].
  - unfold NilZero.string_of_uint. destruct d; try reflexivity;
      apply (Contains_digits _ " "%char eq_refl).
  - rewrite Contains_unfold, prefix_byte. cbn [Ascii.eqb Bool.eqb orb].
    unfold NilZero.string_of_uint. destruct d; try reflexivity;
      apply (Contains_digits _ " "%char eq_refl).
Qed.

(** ** The argument vector and the command line *)

(** X1. Joining the argument vector with spaces gives the command followed by
    the configured flags: splitting loses nothing of the command. *)
Theorem buildCmdArgs_Join (c : CephClient) (cmd : string) :
  Join (buildCmdArgs c cmd) " " = Join (cmd :: spec_connection_flags c) " ".
Proof.
  rewrite buildCmdArgs_spec. destruct (spec_connection_flags c) as [|f fs] eqn:E.
  - rewrite app_nil_r, Split_fields. apply Join_fields.
  - rewrite Join_app by first [apply (Split_nonempty " "%char) | discriminate].
    rewrite (Join_cons cmd (f :: fs)) by discriminate.
    now rewrite Split_fields, Join_fields.
Qed.

(** X2. A provider block in which no attribute is a known, non-empty string adds
    nothing to a command. *)
Theorem Configure_without_attributes (config : cephProvider.cephProviderModel) (cmd : string) :
  ValueString (cephProvider.ConfigFile config) = "" ->
  ValueString (cephProvider.Keyring config) = "" ->
  ValueString (cephProvider.User config) = "" ->
  buildCmdArgs (cephProvider.Configure config) cmd = Split cmd " ".
Proof.
  intros H1 H2 H3. rewrite buildCmdArgs_spec.
  unfold spec_connection_flags, cephProvider.Configure. cbn [ConfigFile Keyring User].
  rewrite H1, H2, H3. apply app_nil_r.
Qed.

Lemma Configure_without_attributes_witness :
  buildCmdArgs
    (cephProvider.Configure
       {| cephProvider.ConfigFile := StringNull;
          cephProvider.Keyring := StringUnknown;
          cephProvider.User := StringValue "" |})
    "ceph status"
  = ["ceph"; "status"].
Proof.
  exact (Configure_without_attributes
           {| cephProvider.ConfigFile := StringNull;
              cephProvider.Keyring := StringUnknown;
              cephProvider.User := StringValue "" |}
           "ceph status" eq_refl eq_refl eq_refl).
Defined.

(** ** Creating a pool *)

Example pool_Create_scenario_A :
  snd (poolResource.Create quiet no_flags test_pool [])
  = [["ceph"; "osd"; "pool"; "create"; "test-pool"; "32"; "32"; "replicated"];
     ["ceph"; "osd"; "pool"; "set"; "test-pool"; "size"; "3"];
     ["ceph"; "osd"; "pool"; "set"; "test-pool"; "min_size"; "2"]].
Proof. reflexivity. Qed.

Lemma pool_Create_trace
  (env : Env) (c : CephClient) (plan : poolResource.Model) (tr : Trace) :
  exists (first : list string) (issued skipped : list (list string)),
    snd (poolResource.Create env c plan tr) = (tr ++ first :: issued)%list
    /\ spec_pool_create_cmds c plan = (first :: issued ++ skipped)%list
    /\ (HasError (fst (poolResource.Create env c plan tr)) = false ->
        skipped = [] /\ State (fst (poolResource.Create env c plan tr)) = Set_ plan)
    /\ (HasError (fst (poolResource.Create env c plan tr)) = true ->
        State (fst (poolResource.Create env c plan tr)) = Untouched).
Proof.
  unfold poolResource.Create, poolResource.Create_step, spec_pool_create_cmds,
    spec_pool_sets, poolResource.create_cmd, bind, ExecuteCommand, ret.
  fold (poolResource.set_size_cmd plan). fold (poolResource.set_min_size_cmd plan).
  fold (poolResource.set_crush_rule_cmd plan).
  destruct (String_IsNull (poolResource.Type_ plan)),
           (Int64_IsNull (poolResource.Size plan)),
           (Int64_IsNull (poolResource.MinSize plan)),
           (String_IsNull (poolResource.CrushRule plan));
    cbn [negb]; run_commands; cbn [fst snd HasError Diagnostics State app];
    rewrite <- ?app_assoc; cbn [app];
    (do 3 eexists; split; [reflexivity|]; split; [cbn [app]; try reflexivity|]);
    try (split; [intros He; try discriminate He; split; reflexivity
                |intros He; try discriminate He; reflexivity]).
  all: try (instantiate (1 := []); reflexivity).
Qed.

Lemma pool_Create_run
  (env : Env) (c : CephClient) (plan : poolResource.Model) (tr : Trace) :
  poolResource.Create env c plan tr
  = spec_run_steps env tr {| Diagnostics := []; State := Set_ plan |}
      (spec_pool_create_steps c plan).
Proof.
  unfold poolResource.Create, poolResource.Create_step, spec_pool_create_steps,
    poolResource.create_cmd, bind, ExecuteCommand, ret.
  fold (poolResource.set_size_cmd plan). fold (poolResource.set_min_size_cmd plan).
  fold (poolResource.set_crush_rule_cmd plan).
  destruct (String_IsNull (poolResource.Type_ plan)),
           (Int64_IsNull (poolResource.Size plan)),
           (Int64_IsNull (poolResource.MinSize plan)),
           (String_IsNull (poolResource.CrushRule plan));
    cbn [negb app spec_run_steps]; run_commands; reflexivity.
Qed.

(** X3. The steps of [Create] are the [create] command and then the [set]
    commands for [size], [min_size] and [crush_rule] that are not null in
    the plan; [Create] runs them in this order up to the first that fails.
    When all succeed it executes all of them, reports no error and stores
    the plan; when one fails after the ones before it succeeded, it has
    executed exactly those and the failing one, reports that failure,
    stores nothing and undoes nothing. *)
Theorem pool_Create_commands
  (env : Env) (c : CephClient) (plan : poolResource.Model) (tr : Trace) :
  map snd (spec_pool_create_steps c plan) = spec_pool_create_cmds c plan
  /\ poolResource.Create env c plan tr
     = spec_run_steps env tr {| Diagnostics := []; State := Set_ plan |}
         (spec_pool_create_steps c plan)
  /\ (spec_all_succeed env tr (spec_pool_create_steps c plan) ->
      poolResource.Create env c plan tr
      = ({| Diagnostics := []; State := Set_ plan |},
         (tr ++ spec_pool_create_cmds c plan)%list))
  /\ (forall (before after : list (string * list string))
             (summary : string) (argv : list string) (msg : string),
        spec_pool_create_steps c plan = (before ++ (summary, argv) :: after)%list ->
        spec_all_succeed env tr before ->
        env (tr ++ map snd before)%list argv = Failure msg ->
        poolResource.Create env c plan tr
        = ({| Diagnostics := [AddError summary (Message ("command failed: " ++ msg))];
              State := Untouched |},
           (tr ++ map snd before ++ [argv])%list))
  /\ (exists (first : list string) (issued skipped : list (list string)),
        snd (poolResource.Create env c plan tr) = (tr ++ first :: issued)%list
        /\ spec_pool_create_cmds c plan = (first :: issued ++ skipped)%list
        /\ (HasError (fst (poolResource.Create env c plan tr)) = false ->
            skipped = [] /\ State (fst (poolResource.Create env c plan tr)) = Set_ plan)
        /\ (HasError (fst (poolResource.Create env c plan tr)) = true ->
            State (fst (poolResource.Create env c plan tr)) = Untouched)).
Proof.
  assert (Hcmds : map snd (spec_pool_create_steps c plan) = spec_pool_create_cmds c plan).
  { unfold spec_pool_create_steps, spec_pool_create_cmds, spec_pool_sets.
    now destruct (Int64_IsNull (poolResource.Size plan)),
                 (Int64_IsNull (poolResource.MinSize plan)),
                 (String_IsNull (poolResource.CrushRule plan)). }
  split; [exact Hcmds|]. split; [apply pool_Create_run|]. split; [|split].
  - intros Hall. rewrite pool_Create_run, <- Hcmds. now apply spec_run_steps_all.
  - intros before after summary argv msg Hsteps Hbefore Hfail.
    rewrite pool_Create_run, Hsteps. now apply spec_run_steps_stops.
  - apply pool_Create_trace.
Qed.

(** A creation whose [min_size] command fails: the pool exists with its
    size set, the failure is reported and nothing is stored. *)
Example pool_Create_third_command_fails :
  poolResource.Create size_only no_flags test_pool []
  = ({| Diagnostics := [AddError "Failed to set pool min_size"
                          (Message "command failed: exit status 1")];
        State := Untouched |},
     [["ceph"; "osd"; "pool"; "create"; "test-pool"; "32"; "32"; "replicated"];
      ["ceph"; "osd"; "pool"; "set"; "test-pool"; "size"; "3"];
      ["ceph"; "osd"; "pool"; "set"; "test-pool"; "min_size"; "2"]]).
Proof. reflexivity. Qed.

Lemma pool_Create_first
  (env : Env) (c : CephClient) (plan : poolResource.Model) (tr : Trace) :
  exists rest : list (list string),
    snd (poolResource.Create env c plan tr)
    = (tr ++ buildCmdArgs c (poolResource.create_cmd plan) :: rest)%list.
Proof.
  destruct (pool_Create_trace env c plan tr) as (first & issued & skipped & Ht & Hs & _).
  unfold spec_pool_create_cmds in Hs. injection Hs as <- _. exists issued. rewrite Ht.
  unfold poolResource.create_cmd.
  now destruct (String_IsNull (poolResource.Type_ plan)).
Qed.

(** X4. The first vector [Create] executes, for a pool name and a pool type
    without spaces: the name, the two placement group counts in decimal (0
    for one that is null) and the type, [replicated] when the plan has
    none. *)
Theorem pool_Create_first_command
  (env : Env) (c : CephClient) (plan : poolResource.Model) (tr : Trace) :
  Contains (ValueString (poolResource.Name plan)) " " = false ->
  Contains (ValueString (poolResource.Type_ plan)) " " = false ->
  exists rest : list (list string),
    snd (poolResource.Create env c plan tr)
    = (tr ++ (["ceph"; "osd"; "pool"; "create";
               ValueString (poolResource.Name plan);
               FormatInt (ValueInt64 (poolResource.PgNum plan));
               FormatInt (ValueInt64 (poolResource.PgpNum plan));
               if String_IsNull (poolResource.Type_ plan) then "replicated"
               else ValueString (poolResource.Type_ plan)]
              ++ spec_connection_flags c) :: rest)%list.
Proof.
  intros Hname Htype.
  destruct (pool_Create_first env c plan tr) as [rest ->]. exists rest. do 2 f_equal.
  rewrite buildCmdArgs_spec. f_equal. unfold poolResource.create_cmd.
  set (name := ValueString (poolResource.Name plan)) in *.
  set (pg := FormatInt (ValueInt64 (poolResource.PgNum plan))).
  set (pgp := FormatInt (ValueInt64 (poolResource.PgpNum plan))).
  set (poolType := if negb (String_IsNull (poolResource.Type_ plan))
                   then ValueString (poolResource.Type_ plan) else "replicated").
  assert (HpoolType : Contains poolType " " = false).
  { subst poolType. destruct (String_IsNull (poolResource.Type_ plan)); [reflexivity | exact Htype]. }
  change ("ceph osd pool create " ++ name ++ " " ++ pg ++ " " ++ pgp ++ " " ++ poolType)
    with ("ceph osd pool create" ++ String " " (name ++ String " " (pg ++ String " "
            (pgp ++ String " " poolType)))).
  rewrite !Split_app.
  rewrite (Split_without " "%char name Hname), (Split_without " "%char poolType HpoolType).
  rewrite (Split_without " "%char pg (FormatInt_no_space _)).
  rewrite (Split_without " "%char pgp (FormatInt_no_space _)).
  subst poolType. now destruct (String_IsNull (poolResource.Type_ plan)).
Qed.

Lemma pool_Create_first_command_witness :
  exists rest : list (list string),
    snd (poolResource.Create quiet no_flags
           {| poolResource.Name := StringValue "app-data";
              poolResource.PgNum := Int64Value 64;
              poolResource.PgpNum := Int64Null;
              poolResource.Size := Int64Value 3;
              poolResource.MinSize := Int64Value 2;
              poolResource.Type_ := StringNull;
              poolResource.CrushRule := StringNull |} [])
    = ["ceph"; "osd"; "pool"; "create"; "app-data"; "64"; "0"; "replicated"] :: rest.
Proof.
  exact (pool_Create_first_command quiet no_flags
           {| poolResource.Name := StringValue "app-data";
              poolResource.PgNum := Int64Value 64;
              poolResource.PgpNum := Int64Null;
              poolResource.Size := Int64Value 3;
              poolResource.MinSize := Int64Value 2;
              poolResource.Type_ := StringNull;
              poolResource.CrushRule := StringNull |} [] eq_refl eq_refl).
Defined.

(** ** What a pool read stores *)

Lemma pool_Read_line_override (size minSize : option Z) (state : poolResource.Model)
  (line : string) :
  poolResource.Read_line (spec_override size minSize state) line
  = spec_override
      (match spec_line_value "size:" line with Some v => Some v | None => size end)
      (match spec_line_value "min_size:" line with Some v => Some v | None => minSize end)
      state.
Proof.
  unfold poolResource.Read_line, spec_line_value.
  destruct (Contains line "size:"), (Contains line "min_size:"),
    (List.length (Split line ":") =? 2)%nat; cbn [andb];
    try destruct (ParseInt10 _) as [v e]; reflexivity.
Qed.

Lemma pool_lines_override (lines : list string) (size minSize : option Z)
  (state : poolResource.Model) :
  fold_left poolResource.Read_line lines (spec_override size minSize state)
  = spec_override (spec_last_value "size:" lines size)
                  (spec_last_value "min_size:" lines minSize) state.
Proof.
  revert size minSize. induction lines as [|line lines IH]; intros size minSize.
  - reflexivity.
  - unfold spec_last_value. cbn [fold_left]. rewrite pool_Read_line_override. apply IH.
Qed.

Lemma pool_last_line_wins (output : string) (state : poolResource.Model) :
  poolResource.parse output state
  = spec_override (spec_last_value "size:" (Split output nl) None)
                  (spec_last_value "min_size:" (Split output nl) None) state.
Proof.
  unfold poolResource.parse. rewrite <- pool_lines_override. now destruct state.
Qed.

(** X5. What the line loop of [Read] stores: [size] is the value of the last
    line that contains [size:] and has one colon, [min_size] the value of
    the last such line that contains [min_size:]; a property no line gives,
    and every other attribute, stays as it was. *)
Theorem pool_parse_last_line_wins (output : string) (state : poolResource.Model) :
  poolResource.parse output state
  = spec_override (spec_last_value "size:" (Split output nl) None)
                  (spec_last_value "min_size:" (Split output nl) None) state.
Proof. apply pool_last_line_wins. Qed.

(** X6. Reading the same output again changes nothing more. *)
Theorem pool_parse_idempotent (output : string) (state : poolResource.Model) :
  poolResource.parse output (poolResource.parse output state)
  = poolResource.parse output state.
Proof.
  rewrite !pool_last_line_wins.
  destruct (spec_last_value "size:" (Split output nl) None),
           (spec_last_value "min_size:" (Split output nl) None); reflexivity.
Qed.

Lemma spec_last_value_none (key : string) (lines : list string) :
  (forall line, In line lines -> Contains line key = false) ->
  spec_last_value key lines None = None.
Proof.
  unfold spec_last_value. induction lines as [|line lines IH]; intros H; [reflexivity|].
  cbn [fold_left].
  assert (Hline : spec_line_value key line = None)
    by (unfold spec_line_value; now rewrite (H line (or_introl eq_refl))).
  rewrite Hline. apply IH. intros l Hl. apply H. now right.
Qed.

Lemma lines_without (output key : string) :
  Contains output key = false ->
  forall line, In line (Split output nl) -> Contains line key = false.
Proof.
  intros H line Hin. unfold nl in Hin. rewrite Split_fields in Hin.
  apply fields_substring, Contains_spec in Hin.
  destruct (Contains line key) eqn:E; [|reflexivity].
  now rewrite (Contains_trans output line key Hin E) in H.
Qed.

(** X7. An output in which [size:] does not occur leaves the state of the pool
    exactly as it was. *)
Theorem pool_parse_without_size (output : string) (state : poolResource.Model) :
  Contains output "size:" = false -> poolResource.parse output state = state.
Proof.
  intros H. rewrite pool_last_line_wins.
  rewrite (spec_last_value_none "size:") by now apply lines_without.
  rewrite (spec_last_value_none "min_size:").
  - now destruct state.
  - intros line Hin. pose proof (lines_without output "size:" H line Hin) as Hl.
    destruct (Contains line "min_size:") eqn:E; [|reflexivity].
    now rewrite (Contains_trans line "min_size:" "size:" E eq_refl) in Hl.
Qed.

Lemma pool_parse_without_size_witness :
  poolResource.parse ("pg_num: 32" ++ nl ++ "crush_rule: replicated_rule" ++ nl) test_pool
  = test_pool.
Proof.
  exact (pool_parse_without_size
           ("pg_num: 32" ++ nl ++ "crush_rule: replicated_rule" ++ nl) test_pool eq_refl).
Defined.

(** ** Users *)

Lemma Split_Join_space (l : list string) :
  l <> [] -> Split (Join l " ") " " = flat_map (fun e => Split e " ") l.
Proof.
  intros Hl. rewrite Split_fields, fields_Join by exact Hl.
  apply flat_map_ext. intros e. now rewrite Split_fields.
Qed.

Lemma capsArgs_tokens (caps : list (string * string)) :
  flat_map (fun e => Split e " ") (userResource.capsArgs caps)
  = flat_map (fun '(daemon, cap) => (Split daemon " " ++ Split cap " ")%list) caps.
Proof.
  induction caps as [|[daemon cap] caps IH]; [reflexivity|].
  unfold userResource.capsArgs in *. cbn [flat_map app]. rewrite IH.
  now rewrite <- ?app_assoc, ?app_nil_r.
Qed.

Lemma caps_command_tokens (c : CephClient) (verb name : string) (caps : list (string * string)) :
  Contains verb " " = false ->
  buildCmdArgs c ("ceph auth " ++ verb ++ " " ++ name ++ " "
                  ++ Join (userResource.capsArgs caps) " ")
  = (["ceph"; "auth"; verb] ++ Split name " " ++ spec_caps_tokens caps
     ++ spec_connection_flags c)%list.
Proof.
  intros Hverb. rewrite buildCmdArgs_spec.
  change ("ceph auth " ++ verb ++ " " ++ name ++ " " ++ Join (userResource.capsArgs caps) " ")
    with ("ceph auth" ++ String " " (verb ++ String " " (name ++ String " "
            (Join (userResource.capsArgs caps) " ")))).
  rewrite !Split_app, (Split_without " "%char verb Hverb).
  change (Split "ceph auth" " ") with ["ceph"; "auth"]. rewrite <- !app_assoc. cbn [app].
  do 3 f_equal. apply f_equal. apply (f_equal (fun l => (l ++ spec_connection_flags c)%list)).
  destruct caps as [|[daemon cap] caps]; [reflexivity|].
  rewrite Split_Join_space by discriminate. now rewrite capsArgs_tokens.
Qed.

Example user_Create_command_of_test :
  snd (userResource.Create quiet no_flags test_user [])
  = [["ceph"; "auth"; "get-or-create"; "client.test";
      "mon"; "allow"; "r"; "osd"; "allow"; "rw"; "pool=rbd"]].
Proof. reflexivity. Qed.

(** X8. [Create] and [Update] of a user each execute one command, which names
    the user and lists every capability of the plan; [Update] does so
    whatever the prior state holds. *)
Theorem user_caps_commands (env : Env) (c : CephClient) (tr : Trace) :
  (forall plan : userResource.Model,
      snd (userResource.Create env c plan tr)
      = (tr ++ [["ceph"; "auth"; "get-or-create"]
                ++ Split (ValueString (userResource.Name plan)) " "
                ++ spec_caps_tokens (userResource.Caps plan)
                ++ spec_connection_flags c])%list)
  /\ (forall req : UpdateRequest userResource.Model,
        snd (userResource.Update env c req tr)
        = (tr ++ [["ceph"; "auth"; "caps"]
                  ++ Split (ValueString (userResource.Name (req_Plan req))) " "
                  ++ spec_caps_tokens (userResource.Caps (req_Plan req))
                  ++ spec_connection_flags c])%list).
Proof.
  split.
  - intros plan. rewrite <- (caps_command_tokens c "get-or-create") by reflexivity.
    unfold userResource.Create, bind, ExecuteCommand, ret. run_commands; reflexivity.
  - intros req. rewrite <- (caps_command_tokens c "caps") by reflexivity.
    unfold userResource.Update, bind, ExecuteCommand, ret. run_commands; reflexivity.
Qed.

(** X9. [Read] of a user executes one command and never stores anything but
    the state it was given: capabilities and key are not read back. *)
Theorem user_Read_keeps_state
  (env : Env) (c : CephClient) (state : userResource.Model) (tr : Trace) :
  snd (userResource.Read env c state tr)
  = (tr ++ [buildCmdArgs c ("ceph auth get " ++ ValueString (userResource.Name state))])%list
  /\ (State (fst (userResource.Read env c state tr)) = Set_ state
      \/ State (fst (userResource.Read env c state tr)) = RemoveResource
      \/ State (fst (userResource.Read env c state tr)) = Untouched).
Proof.
  split.
  - unfold userResource.Read, bind, ExecuteCommand, ret. run_commands; cbn [snd].
    + now destruct (negb (Contains _ _)).
    + now destruct (Contains _ "entity does not exist").
  - rewrite user_Read_result. destruct (env tr _) as [output|msg].
    + destruct (Contains output _); cbn [State]; auto.
    + destruct (Contains _ "entity does not exist"); cbn [State]; auto.
Qed.

(** ** Block images *)

Example image_Create_scenario_C :
  snd (blockImageResource.Create quiet no_flags
         {| blockImageResource.Name := StringValue "img";
            blockImageResource.Pool := StringValue "rbd";
            blockImageResource.Size := StringValue "1G";
            blockImageResource.Features := SetNull |} [])
  = [["rbd"; "create"; "--size"; "1G"; "rbd/img"]]
  /\ snd (blockImageResource.Create quiet no_flags
            {| blockImageResource.Name := StringValue "img";
               blockImageResource.Pool := StringValue "rbd";
               blockImageResource.Size := StringValue "1G";
               blockImageResource.Features := SetValue ["layering"; "exclusive-lock"] |} [])
     = [["rbd"; "create"; "--size"; "1G"; "rbd/img";
         "--image-feature"; "layering,exclusive-lock"]].
Proof. split; reflexivity. Qed.

(** X10. [Create] of a block image whose set of features is null or known
    executes one command; when size, pool, name and features hold no space
    its arguments are the size, [pool/name] and, only for a set that is not
    empty, [--image-feature] with the features joined by commas. *)
Theorem image_Create_command
  (env : Env) (c : CephClient) (plan : blockImageResource.Model) (tr : Trace)
  (features : list string) :
  blockImageResource.ElementsAs (blockImageResource.Features plan) = Some features ->
  Contains (ValueString (blockImageResource.Size plan)) " " = false ->
  Contains (ValueString (blockImageResource.Pool plan) ++ "/"
            ++ ValueString (blockImageResource.Name plan)) " " = false ->
  Contains (Join features ",") " " = false ->
  snd (blockImageResource.Create env c plan tr)
  = (tr ++ [["rbd"; "create"; "--size"; ValueString (blockImageResource.Size plan);
             (ValueString (blockImageResource.Pool plan) ++ "/"
              ++ ValueString (blockImageResource.Name plan))%string]
            ++ spec_feature_args features ++ spec_connection_flags c])%list
  /\ fst (blockImageResource.Create env c plan tr) <> None.
Proof.
  intros Hf Hsize Htarget Hfeatures.
  set (size := ValueString (blockImageResource.Size plan)) in *.
  set (target := ValueString (blockImageResource.Pool plan) ++ "/"
                 ++ ValueString (blockImageResource.Name plan)) in *.
  assert (Hplain : buildCmdArgs c ("rbd create --size " ++ size ++ " " ++ target)
                   = (["rbd"; "create"; "--size"; size; target]
                      ++ spec_connection_flags c)%list).
  { rewrite buildCmdArgs_spec.
    change ("rbd create --size " ++ size ++ " " ++ target)
      with ("rbd create --size" ++ String " " (size ++ String " " target)).
    rewrite !Split_app, (Split_without " "%char size Hsize),
      (Split_without " "%char target Htarget). reflexivity. }
  assert (Hfeat : forall f fs, features = f :: fs ->
            buildCmdArgs c (("rbd create --size " ++ size ++ " " ++ target)
                            ++ " --image-feature " ++ Join features ",")
            = (["rbd"; "create"; "--size"; size; target]
               ++ ["--image-feature"; Join features ","] ++ spec_connection_flags c)%list).
  { intros f fs _. rewrite buildCmdArgs_spec, !append_assoc.
    change ("rbd create --size " ++ size ++ " " ++ target ++ " --image-feature "
            ++ Join features ",")
      with ("rbd create --size" ++ String " " (size ++ String " " (target ++ String " "
              ("--image-feature" ++ String " " (Join features ","))))).
    rewrite !Split_app, (Split_without " "%char size Hsize),
      (Split_without " "%char target Htarget),
      (Split_without " "%char (Join features ",") Hfeatures). reflexivity. }
  unfold blockImageResource.Create, bind, ExecuteCommand, ret. fold size. fold target.
  destruct (blockImageResource.Features plan) as [| |elems]; cbn in Hf; [|discriminate|];
    injection Hf as <-.
  - run_commands; cbn [fst snd]; (split; [now rewrite Hplain | discriminate]).
  - cbn [blockImageResource.ElementsAs]. destruct elems as [|f fs].
    + cbn [List.length Nat.ltb Nat.leb]. run_commands; cbn [fst snd];
        (split; [now rewrite Hplain | discriminate]).
    + cbn [List.length Nat.ltb Nat.leb]. run_commands; cbn [fst snd];
        (split; [now rewrite (Hfeat f fs eq_refl) | discriminate]).
Qed.

Lemma image_Create_command_witness :
  snd (blockImageResource.Create quiet no_flags
         {| blockImageResource.Name := StringValue "img";
            blockImageResource.Pool := StringValue "rbd";
            blockImageResource.Size := StringValue "1G";
            blockImageResource.Features := SetValue ["layering"] |} [])
  = [["rbd"; "create"; "--size"; "1G"; "rbd/img"; "--image-feature"; "layering"]]
  /\ fst (blockImageResource.Create quiet no_flags
            {| blockImageResource.Name := StringValue "img";
               blockImageResource.Pool := StringValue "rbd";
               blockImageResource.Size := StringValue "1G";
               blockImageResource.Features := SetValue ["layering"] |} [])
     <> None.
Proof.
  exact (image_Create_command quiet no_flags
           {| blockImageResource.Name := StringValue "img";
              blockImageResource.Pool := StringValue "rbd";
              blockImageResource.Size := StringValue "1G";
              blockImageResource.Features := SetValue ["layering"] |} []
           ["layering"] eq_refl eq_refl eq_refl eq_refl).
Defined.

(** X11. When the query of a block image [Read] fails, the image is removed from
    the state, without a diagnostic, if the error message contains [No such
    file or directory]; otherwise the error is reported as [Failed to read
    block image] and the state is left as it was. *)
Theorem image_Read_execution_error
  (Sprintf_f0 : json.number -> string)
  (env : Env) (c : CephClient) (state : blockImageResource.Model) (tr : Trace) (msg : string) :
  env tr (buildCmdArgs c ("rbd info " ++ ValueString (blockImageResource.Pool state)
                          ++ "/" ++ ValueString (blockImageResource.Name state)
                          ++ " --format json")) = Failure msg ->
  (substring_of "No such file or directory" ("command failed: " ++ msg) ->
   fst (blockImageResource.Read Sprintf_f0 env c state tr)
   = {| Diagnostics := []; State := RemoveResource |})
  /\ (~ substring_of "No such file or directory" ("command failed: " ++ msg) ->
      fst (blockImageResource.Read Sprintf_f0 env c state tr)
      = {| Diagnostics := [AddError "Failed to read block image"
                             (Message ("command failed: " ++ msg))];
           State := Untouched |}).
Proof.
  intros Hrun. rewrite image_Read_result, Hrun. split; intros H.
  - apply Contains_spec in H. now rewrite H.
  - apply Contains_false in H. now rewrite H.
Qed.

Lemma image_Read_execution_error_witness :
  fst (blockImageResource.Read integer_digits
         (failing "rbd: error opening image test-image: (2) No such file or directory")
         no_flags test_image [])
  = {| Diagnostics := []; State := RemoveResource |}
  /\ fst (blockImageResource.Read integer_digits (failing "exit status 2")
            no_flags test_image [])
     = {| Diagnostics := [AddError "Failed to read block image"
                            (Message "command failed: exit status 2")];
          State := Untouched |}.
Proof.
  split.
  - apply (image_Read_execution_error integer_digits
             (failing "rbd: error opening image test-image: (2) No such file or directory")
             no_flags test_image []
             "rbd: error opening image test-image: (2) No such file or directory" eq_refl).
    apply Contains_spec. reflexivity.
  - apply (image_Read_execution_error integer_digits (failing "exit status 2")
             no_flags test_image [] "exit status 2" eq_refl).
    apply Contains_false. reflexivity.
Defined.

(** X12. Whatever [Read] of a block image stores has the name, the pool and the
    features of the prior state; its size is the prior one or a number
    followed by [B]. *)
Theorem image_Read_keeps_identity
  (Sprintf_f0 : json.number -> string)
  (env : Env) (c : CephClient) (state stored : blockImageResource.Model) (tr : Trace) :
  State (fst (blockImageResource.Read Sprintf_f0 env c state tr)) = Set_ stored ->
  blockImageResource.Name stored = blockImageResource.Name state
  /\ blockImageResource.Pool stored = blockImageResource.Pool state
  /\ blockImageResource.Features stored = blockImageResource.Features state
  /\ (blockImageResource.Size stored = blockImageResource.Size state
      \/ exists size : json.number,
           blockImageResource.Size stored = StringValue (Sprintf_f0 size ++ "B")).
Proof.
  rewrite image_Read_result. destruct (env tr _) as [output|msg].
  - destruct (json.Unmarshal output) as [imageInfo|]; [|discriminate].
    cbn [State]. intros [= <-].
    destruct (json.lookup "size" imageInfo) as [[| |size| | |]|]; cbn; eauto 6.
  - destruct (Contains _ "No such file or directory"); discriminate.
Qed.

Lemma image_Read_keeps_identity_witness :
  blockImageResource.Name
    (blockImageResource.set_Size test_image (StringValue "1073741824B"))
  = blockImageResource.Name test_image
  /\ blockImageResource.Pool
       (blockImageResource.set_Size test_image (StringValue "1073741824B"))
     = blockImageResource.Pool test_image
  /\ blockImageResource.Features
       (blockImageResource.set_Size test_image (StringValue "1073741824B"))
     = blockImageResource.Features test_image
  /\ (blockImageResource.Size
        (blockImageResource.set_Size test_image (StringValue "1073741824B"))
      = blockImageResource.Size test_image
      \/ exists size : json.number,
           blockImageResource.Size
             (blockImageResource.set_Size test_image (StringValue "1073741824B"))
           = StringValue (integer_digits size ++ "B")).
Proof.
  exact (image_Read_keeps_identity integer_digits
           (answers ("{" ++ dquote ++ "size" ++ dquote ++ ": 1073741824}"))
           no_flags test_image
           (blockImageResource.set_Size test_image (StringValue "1073741824B")) []
           eq_refl).
Defined.

(** ** Deleting *)

(** X13. Deleting a user or a block image executes one command, [ceph auth del
    <name>] or [rbd rm <pool>/<name>], and no delete stores a state. *)
Theorem Delete_commands (env : Env) (c : CephClient) (tr : Trace) :
  (forall state : userResource.Model,
      snd (userResource.Delete env c state tr)
      = (tr ++ [["ceph"; "auth"; "del"]
                ++ Split (ValueString (userResource.Name state)) " "
                ++ spec_connection_flags c])%list
      /\ State (fst (userResource.Delete env c state tr)) = Untouched)
  /\ (forall state : blockImageResource.Model,
        snd (blockImageResource.Delete env c state tr)
        = (tr ++ [["rbd"; "rm"]
                  ++ Split (ValueString (blockImageResource.Pool state) ++ "/"
                            ++ ValueString (blockImageResource.Name state))%string " "
                  ++ spec_connection_flags c])%list
        /\ State (fst (blockImageResource.Delete env c state tr)) = Untouched)
  /\ (forall state : poolResource.Model,
        State (fst (poolResource.Delete env c state tr)) = Untouched).
Proof.
  split; [|split]; intros state.
  - unfold userResource.Delete, bind, ExecuteCommand, ret. rewrite buildCmdArgs_spec.
    change ("ceph auth del " ++ ValueString (userResource.Name state))
      with ("ceph auth del" ++ String " " (ValueString (userResource.Name state))).
    rewrite Split_app. run_commands; cbn [fst snd State]; now rewrite <- app_assoc.
  - unfold blockImageResource.Delete, bind, ExecuteCommand, ret. rewrite buildCmdArgs_spec.
    change ("rbd rm " ++ ValueString (blockImageResource.Pool state) ++ "/"
            ++ ValueString (blockImageResource.Name state))
      with ("rbd rm" ++ String " " (ValueString (blockImageResource.Pool state) ++ "/"
                                     ++ ValueString (blockImageResource.Name state))).
    rewrite Split_app. run_commands; cbn [fst snd State]; now rewrite <- app_assoc.
  - unfold poolResource.Delete, bind, ExecuteCommand, ret. run_commands; reflexivity.
Qed.

(** ** Errors and the state *)

(** X14. A method that reports an error stores no state: for every resource and
    data source, a response with an error diagnostic leaves the state
    untouched. *)
Theorem error_stores_nothing (env : Env) (c : CephClient) (tr : Trace) :
  (forall state : poolResource.Model,
      HasError (fst (poolResource.Read env c state tr)) = true ->
      State (fst (poolResource.Read env c state tr)) = Untouched)
  /\ (forall req : UpdateRequest poolResource.Model,
        HasError (fst (poolResource.Update env c req tr)) = true ->
        State (fst (poolResource.Update env c req tr)) = Untouched)
  /\ (forall plan : userResource.Model,
        HasError (fst (userResource.Create env c plan tr)) = true ->
        State (fst (userResource.Create env c plan tr)) = Untouched)
  /\ (forall state : userResource.Model,
        HasError (fst (userResource.Read env c state tr)) = true ->
        State (fst (userResource.Read env c state tr)) = Untouched)
  /\ (forall req : UpdateRequest userResource.Model,
        HasError (fst (userResource.Update env c req tr)) = true ->
        State (fst (userResource.Update env c req tr)) = Untouched)
  /\ (forall (Sprintf_f0 : json.number -> string) (state : blockImageResource.Model),
        HasError (fst (blockImageResource.Read Sprintf_f0 env c state tr)) = true ->
        State (fst (blockImageResource.Read Sprintf_f0 env c state tr)) = Untouched)
  /\ (forall req : UpdateRequest blockImageResource.Model,
        HasError (fst (blockImageResource.Update env c req tr)) = true ->
        State (fst (blockImageResource.Update env c req tr)) = Untouched)
  /\ (HasError (fst (clusterStatusDataSource.Read env c tr)) = true ->
      State (fst (clusterStatusDataSource.Read env c tr)) = Untouched)
  /\ (forall config : poolDataSource.Model,
        HasError (fst (poolDataSource.Read env c config tr)) = true ->
        State (fst (poolDataSource.Read env c config tr)) = Untouched).
Proof.
  repeat match goal with |- _ /\ _ => split end.
  - intros state. unfold poolResource.Read. settle_outcome.
  - intros [plan state]. unfold poolResource.Update. cbn [req_Plan]. settle_outcome.
  - intros plan. unfold userResource.Create. settle_outcome.
  - intros state. unfold userResource.Read. settle_outcome.
  - intros [plan state]. unfold userResource.Update. cbn [req_Plan]. settle_outcome.
  - intros Sprintf_f0 state. unfold blockImageResource.Read. settle_outcome.
  - intros [plan state]. unfold blockImageResource.Update. cbn [req_Plan req_State].
    settle_outcome.
  - unfold clusterStatusDataSource.Read. settle_outcome.
  - intros config. unfold poolDataSource.Read. settle_outcome.
Qed.

(** ** The cluster status commands *)

(** X15. [Read] of the cluster status executes the status query and, only when
    that succeeded and its output was decoded, the pool listing: a response
    with an error stands for a single command, one without for both. *)
Theorem cluster_Read_commands (env : Env) (c : CephClient) (tr : Trace) :
  snd (clusterStatusDataSource.Read env c tr)
  = (tr ++ (["ceph"; "status"; "--format"; "json"] ++ spec_connection_flags c)
        :: if HasError (fst (clusterStatusDataSource.Read env c tr)) then []
           else [["ceph"; "osd"; "pool"; "ls"] ++ spec_connection_flags c])%list.
Proof.
  change (["ceph"; "status"; "--format"; "json"] ++ spec_connection_flags c)%list
    with (Split "ceph status --format json" " " ++ spec_connection_flags c)%list.
  change (["ceph"; "osd"; "pool"; "ls"] ++ spec_connection_flags c)%list
    with (Split "ceph osd pool ls" " " ++ spec_connection_flags c)%list.
  rewrite <- !buildCmdArgs_spec.
  unfold clusterStatusDataSource.Read, bind, ExecuteCommand, ret.
  destruct (env tr _) as [output|msg]; [|reflexivity].
  destruct (json.Unmarshal output) as [status|]; [|reflexivity].
  run_commands; cbn [fst snd HasError Diagnostics]; now rewrite <- app_assoc.
Qed.

(** X16. The pool count of a snapshot is never 0: the listing is trimmed and cut
    at line ends, and a listing with no pool still has one (empty) field,
    so that a cluster without pools is reported with pool count 1. *)
Theorem cluster_pool_count_positive
  (env : Env) (c : CephClient) (tr : Trace)
  (output listing : string) (status : list (string * json.value)) :
  env tr (buildCmdArgs c "ceph status --format json") = Output output ->
  json.Unmarshal output = Some status ->
  env (tr ++ [buildCmdArgs c "ceph status --format json"])%list
      (buildCmdArgs c "ceph osd pool ls") = Output listing ->
  exists (snapshot : clusterStatusDataSource.Model) (count : Z),
    State (fst (clusterStatusDataSource.Read env c tr)) = Set_ snapshot
    /\ clusterStatusDataSource.PoolCount snapshot = Int64Value count
    /\ (1 <= count)%Z
    /\ (TrimSpace listing = "" -> count = 1%Z).
Proof.
  intros Hrun Hjson Hls. rewrite cluster_Read_result, Hrun, Hjson, Hls.
  eexists. eexists. split; [reflexivity|]. split; [reflexivity|].
  unfold nl. pose proof (Split_nonempty "010"%char (TrimSpace listing)) as Hne. split.
  - destruct (Split (TrimSpace listing) (String "010"%char "")); [congruence | cbn; lia].
  - intros ->. reflexivity.
Qed.

Lemma cluster_pool_count_positive_witness :
  exists (snapshot : clusterStatusDataSource.Model) (count : Z),
    State (fst (clusterStatusDataSource.Read empty_cluster no_flags [])) = Set_ snapshot
    /\ clusterStatusDataSource.PoolCount snapshot = Int64Value count
    /\ (1 <= count)%Z
    /\ (TrimSpace nl = "" -> count = 1%Z).
Proof.
  exact (cluster_pool_count_positive empty_cluster no_flags [] "{}" nl [] eq_refl eq_refl eq_refl).
Defined.

(** ** The pool data source *)

Lemma property_without (key : string)
  (set : poolDataSource.Model -> types.Int64 -> poolDataSource.Model)
  (state : poolDataSource.Model) (line : string) :
  Contains line key = false -> poolDataSource.property key set state line = state.
Proof. intros H. unfold poolDataSource.property. now rewrite H. Qed.

Lemma pool_data_parse_without (output : string) (state : poolDataSource.Model) :
  Contains output "size:" = false ->
  Contains output "pg_num:" = false ->
  poolDataSource.parse output state = state.
Proof.
  intros Hsize Hpg. unfold poolDataSource.parse.
  pose proof (lines_without output "size:" Hsize) as Hs.
  pose proof (lines_without output "pg_num:" Hpg) as Hp.
  induction (Split output nl) as [|line lines IH]; [reflexivity|].
  cbn [fold_left]. unfold poolDataSource.Read_line at 2.
  assert (Hmin : Contains line "min_size:" = false).
  { destruct (Contains line "min_size:") eqn:E; [|reflexivity].
    rewrite <- (Hs line (or_introl eq_refl)).
    symmetry. exact (Contains_trans line "min_size:" "size:" E eq_refl). }
  rewrite !property_without by (try exact Hmin; first [apply Hs | apply Hp]; now left).
  apply IH; intros l Hl; [apply Hs | apply Hp]; now right.
Qed.

Lemma pool_data_parse_frame (output : string) (state : poolDataSource.Model) :
  poolDataSource.Name (poolDataSource.parse output state) = poolDataSource.Name state
  /\ poolDataSource.Type_ (poolDataSource.parse output state) = poolDataSource.Type_ state.
Proof.
  unfold poolDataSource.parse. revert state.
  induction (Split output nl) as [|line lines IH]; intros state; [now split|].
  cbn [fold_left]. destruct (IH (poolDataSource.Read_line state line)) as [-> ->].
  unfold poolDataSource.Read_line, poolDataSource.property.
  repeat match goal with
         | |- context [if ?b then _ else _] => destruct b
         | |- context [ParseInt10 ?s] => destruct (ParseInt10 s)
         end; now split.
Qed.

(** X17. When its first query succeeds, [Read] of the pool data source reports
    no error, executes the [all] and the [type] queries, and stores a state
    with the configured name; a failing [type] query leaves the type null,
    and an output that mentions neither [size:] nor [pg_num:] leaves the
    three numbers null. *)
Theorem pool_data_Read_best_effort
  (env : Env) (c : CephClient) (config : poolDataSource.Model) (tr : Trace) (output : string) :
  env tr (buildCmdArgs c ("ceph osd pool get " ++ ValueString (poolDataSource.Name config)
                          ++ " all")) = Output output ->
  exists stored : poolDataSource.Model,
    fst (poolDataSource.Read env c config tr) = {| Diagnostics := []; State := Set_ stored |}
    /\ snd (poolDataSource.Read env c config tr)
       = (tr ++ [buildCmdArgs c ("ceph osd pool get "
                                 ++ ValueString (poolDataSource.Name config) ++ " all");
                 buildCmdArgs c ("ceph osd pool get "
                                 ++ ValueString (poolDataSource.Name config) ++ " type")])%list
    /\ poolDataSource.Name stored = poolDataSource.Name config
    /\ ((exists msg,
            env (tr ++ [buildCmdArgs c ("ceph osd pool get "
                                        ++ ValueString (poolDataSource.Name config)
                                        ++ " all")])%list
                (buildCmdArgs c ("ceph osd pool get "
                                 ++ ValueString (poolDataSource.Name config) ++ " type"))
            = Failure msg) ->
        poolDataSource.Type_ stored = StringNull)
    /\ (Contains output "size:" = false -> Contains output "pg_num:" = false ->
        poolDataSource.Size stored = Int64Null
        /\ poolDataSource.MinSize stored = Int64Null
        /\ poolDataSource.PgNum stored = Int64Null).
Proof.
  intros Hrun. unfold poolDataSource.Read, bind, ExecuteCommand, ret. rewrite Hrun.
  set (blank := {| poolDataSource.Name := poolDataSource.Name config;
                   poolDataSource.PgNum := Int64Null; poolDataSource.Size := Int64Null;
                   poolDataSource.MinSize := Int64Null;
                   poolDataSource.Type_ := StringNull |}).
  destruct (pool_data_parse_frame output blank) as [Hname Htype].
  destruct (env _ (buildCmdArgs c (_ ++ _ ++ " type"))) as [out2|msg2] eqn:E2;
    cbn [fst snd]; eexists; (split; [reflexivity|]);
    (split; [now rewrite <- app_assoc|]).
  - destruct (List.length (Split out2 ":") =? 2)%nat;
      unfold poolDataSource.set_Type;
      cbn [poolDataSource.Name poolDataSource.Type_ poolDataSource.Size
           poolDataSource.MinSize poolDataSource.PgNum];
      (split; [exact Hname|]); (split; [intros [msg Hm]; discriminate Hm|]);
      intros Hs Hp; rewrite (pool_data_parse_without output blank Hs Hp); auto.
  - split; [exact Hname|]. split; [intros _; exact Htype|].
    intros Hs Hp. rewrite (pool_data_parse_without output blank Hs Hp); auto.
Qed.

Lemma pool_data_Read_best_effort_witness :
  exists stored : poolDataSource.Model,
    fst (poolDataSource.Read (answers "pg_num: 32") no_flags
           {| poolDataSource.Name := StringValue "rbd"; poolDataSource.PgNum := Int64Null;
              poolDataSource.Size := Int64Null; poolDataSource.MinSize := Int64Null;
              poolDataSource.Type_ := StringNull |} [])
    = {| Diagnostics := []; State := Set_ stored |}
    /\ poolDataSource.Name stored = StringValue "rbd".
Proof.
  destruct (pool_data_Read_best_effort (answers "pg_num: 32") no_flags
              {| poolDataSource.Name := StringValue "rbd"; poolDataSource.PgNum := Int64Null;
                 poolDataSource.Size := Int64Null; poolDataSource.MinSize := Int64Null;
                 poolDataSource.Type_ := StringNull |} [] "pg_num: 32" eq_refl)
    as (stored & Hfst & _ & Hname & _).
  exists stored. split; [exact Hfst | exact Hname].
Defined.

(** ** The key of a new user *)

Lemma extract_key_without_marker (output : string) (plan : userResource.Model) :
  Contains output "key =" = false -> userResource.extract_key output plan = plan.
Proof.
  intros H. unfold userResource.extract_key.
  pose proof (lines_without output "key =" H) as Hl.
  induction (Split output nl) as [|line lines IH]; [reflexivity|].
  cbn [fold_left]. unfold userResource.Create_line at 2.
  rewrite (Hl line (or_introl eq_refl)). apply IH. intros l Hin. apply Hl. now right.
Qed.

(** X18. When the creation command succeeds and its output holds no [key =], the
    state [Create] stores is the plan as it came, its key not set. *)
Theorem user_Create_without_marker
  (env : Env) (c : CephClient) (plan : userResource.Model) (tr : Trace) (output : string) :
  env tr (buildCmdArgs c ("ceph auth get-or-create " ++ ValueString (userResource.Name plan)
                          ++ " " ++ Join (userResource.capsArgs (userResource.Caps plan)) " "))
  = Output output ->
  Contains output "key =" = false ->
  fst (userResource.Create env c plan tr) = {| Diagnostics := []; State := Set_ plan |}.
Proof.
  intros Hrun Hkey. unfold userResource.Create, bind, ExecuteCommand, ret.
  rewrite Hrun. cbn [fst]. now rewrite extract_key_without_marker.
Qed.

Lemma user_Create_without_marker_witness :
  fst (userResource.Create (answers "key=AQBbJ2Zn") no_flags
         {| userResource.Name := StringValue "client.test";
            userResource.Caps := [("mon", "allow r")];
            userResource.Key := StringUnknown |} [])
  = {| Diagnostics := [];
       State := Set_ {| userResource.Name := StringValue "client.test";
                        userResource.Caps := [("mon", "allow r")];
                        userResource.Key := StringUnknown |} |}.
Proof.
  exact (user_Create_without_marker (answers "key=AQBbJ2Zn") no_flags
           {| userResource.Name := StringValue "client.test";
              userResource.Caps := [("mon", "allow r")];
              userResource.Key := StringUnknown |} [] "key=AQBbJ2Zn" eq_refl eq_refl).
Defined.
